(** * epub-compressor: the extract / minify / repack pipeline of [dist/index.js]

    The development embeds the functions of [dist/index.js] ([walk],
    [processFiles], the per-type minifiers, [optimizeImage], [createEpub],
    [extractTo], [removeDir] and [run]) and proves the properties the
    specification states about them.

    Conventions of the embedding.
    - A JavaScript string is a [string]: one character of the model is one
      code unit, and the default order of [Array.prototype.sort] is the
      code-unit order [String.leb].
    - A [Buffer] is a [list byte]; a JavaScript number is a binary64 [float].
    - The asynchronous functions run one after the other (every call is
      awaited), so they are functions in a state and exception monad [M]
      over the [world] of a job: its temporary directory, what it has
      opened at its output path, and its console.
    - The third-party engines (html-minifier-terser, csso, terser, imagemin,
      unzipper) are the fields of the class [Engines]: every theorem holds
      for all of them.  [path.extname] follows the POSIX implementation of
      Node.
    - The archiver is its queue: the entries in the order of the calls of
      [append] and [file], each with its name, bytes and store flag.  What
      fails in it (the output path that does not open, a level zlib
      refuses, the read of a directory) ends the process on an uncaught
      exception, outside [run().catch]; which paths open and which levels
      zlib takes are fields of [Engines] as well.
    - The working tree is what extraction wrote, directories and regular
      files; reads and writes of files that exist succeed.  Trees with
      symbolic links are not modelled. *)

From Stdlib Require Import List String Ascii Bool Arith ZArith Lia.
From Stdlib.Strings Require Import Byte.
From Stdlib Require Import Permutation Sorted.
From Stdlib Require Import Floats Uint63.
Import ListNotations.

Local Open Scope string_scope.
Local Open Scope list_scope.

Set Warnings "-inexact-float,-register-all".

(** ** Node's [path] module (POSIX flavour), as far as the program uses it *)

Module Path.

(** [path.join(p, name)] for a normalised [p] and a directory entry name
    (never empty, ["."], [".."], and free of ["/"]). *)
Definition join (p name : string) : string := p ++ "/" ++ name.

Fixpoint strip_prefix (pre s : string) : option string :=
  match pre with
  | EmptyString => Some s
  | String a pre' =>
      match s with
      | EmptyString => None
      | String b s' => if Ascii.eqb a b then strip_prefix pre' s' else None
      end
  end.

(** [path.relative(from, to)] where [to] lies below [from], the only way
    the program calls it (every [to] comes out of [walk(from)]).  Outside
    that case Node climbs with [".."] segments; the model then hands
    [to] back. *)
Definition relative (from to : string) : string :=
  match strip_prefix (from ++ "/") to with
  | Some rel => rel
  | None => to
  end.

(** The scanning state of [path.extname]. *)
Record scan := mkScan {
  startDot : Z;
  startPart : Z;
  end_ : Z;
  matchedSlash : bool;
  preDotState : Z
}.

Definition scan0 : scan := mkScan (-1) 0 (-1) true 0.

(** One pass of the [for (let i = path.length - 1; i >= 0; --i)] loop of
    [extname]; [codes] holds the characters at indices [i], [i-1], ... *)
Fixpoint extname_loop (codes : list ascii) (i : Z) (st : scan) : scan :=
  match codes with
  | [] => st
  | code :: rest =>
      if Ascii.eqb code "/" then
        if negb (matchedSlash st) then
          mkScan (startDot st) (i + 1) (end_ st) (matchedSlash st) (preDotState st)
        else extname_loop rest (i - 1) st
      else
        let st1 :=
          if (end_ st =? -1)%Z
          then mkScan (startDot st) (startPart st) (i + 1) false (preDotState st)
          else st in
        let st2 :=
          if Ascii.eqb code "." then
            if (startDot st1 =? -1)%Z
            then mkScan i (startPart st1) (end_ st1) (matchedSlash st1) (preDotState st1)
            else if negb (preDotState st1 =? 1)%Z
                 then mkScan (startDot st1) (startPart st1) (end_ st1) (matchedSlash st1) 1
                 else st1
          else if negb (startDot st1 =? -1)%Z
               then mkScan (startDot st1) (startPart st1) (end_ st1) (matchedSlash st1) (-1)
               else st1 in
        extname_loop rest (i - 1) st2
  end.

Definition slice (s : string) (from to : Z) : string :=
  substring (Z.to_nat from) (Z.to_nat (to - from)) s.

Definition extname (path : string) : string :=
  let st := extname_loop (rev (list_ascii_of_string path))
                         (Z.of_nat (String.length path) - 1) scan0 in
  if (startDot st =? -1)%Z
     || (end_ st =? -1)%Z
     || (preDotState st =? 0)%Z
     || ((preDotState st =? 1)%Z
         && (startDot st =? end_ st - 1)%Z
         && (startDot st =? startPart st + 1)%Z)
  then ""
  else slice path (startDot st) (end_ st).

End Path.

(** [String.prototype.toLowerCase].  The program only compares the result
    with the ASCII literals [".html"], ..., [".png"], none of which holds an
    [i] or a [k]; outside ASCII only the Kelvin sign and the dotted capital I
    have an ASCII letter in their lower-case form, and these letters are [k]
    and [i].  So folding the ASCII capitals decides every one of these
    comparisons the way the full Unicode mapping does. *)
Definition lower_ascii (c : ascii) : ascii :=
  let n := nat_of_ascii c in
  if (65 <=? n)%nat && (n <=? 90)%nat then ascii_of_nat (n + 32) else c.

Fixpoint toLowerCase (s : string) : string :=
  match s with
  | EmptyString => EmptyString
  | String c s' => String (lower_ascii c) (toLowerCase s')
  end.

(** ** The working tree

    A directory is the list of its entries in the order [readdir] reports
    them.  Extraction writes directories and regular files only; the trees
    of the model hold no symbolic link, so on them the test
    [entry.isFile() || entry.isSymbolicLink()] of [walk], which lets a
    symbolic link through as well, is the test for a regular file.  [Other]
    stands for the special files that [walk] passes over (sockets, pipes,
    devices). *)

Inductive node :=
| File (content : list byte)
| Dir (entries : list (string * node))
| Other.

Definition tree := list (string * node).

(** The part of the file system below the directory [mount]. *)
Record volume := mkVolume { mount : string; top : tree }.

Section node_induction.
Variable P : node -> Prop.
Hypothesis P_File : forall c, P (File c).
Hypothesis P_Other : P Other.
Hypothesis P_Dir : forall es, Forall (fun e => P (snd e)) es -> P (Dir es).

Fixpoint node_rect' (n : node) : P n :=
  match n with
  | File c => P_File c
  | Other => P_Other
  | Dir es =>
      P_Dir es
        ((fix all (l : list (string * node)) : Forall (fun e => P (snd e)) l :=
            match l with
            | [] => Forall_nil _
            | e :: l' => Forall_cons e (node_rect' (snd e)) (all l')
            end) es)
  end.
End node_induction.

(** Every node below [full], with its path, in depth-first order. *)
Fixpoint nodes_at (full : string) (n : node) : list (string * node) :=
  (full, n) ::
  match n with
  | Dir es => flat_map (fun e => nodes_at (Path.join full (fst e)) (snd e)) es
  | _ => []
  end.

Definition nodes_in (p : string) (es : tree) : list (string * node) :=
  flat_map (fun e => nodes_at (Path.join p (fst e)) (snd e)) es.

(** The node a path names. *)
Definition lookup (v : volume) (p : string) : option node :=
  if String.eqb p (mount v) then Some (Dir (top v))
  else option_map snd (find (fun e => String.eqb (fst e) p) (nodes_in (mount v) (top v))).

(** Overwrite the regular file at [target]. *)
Fixpoint put (full target : string) (data : list byte) (n : node) : node :=
  match n with
  | File c => if String.eqb full target then File data else File c
  | Dir es => Dir (map (fun e => (fst e, put (Path.join full (fst e)) target data (snd e))) es)
  | Other => Other
  end.

Definition put_in (p target : string) (data : list byte) (es : tree) : tree :=
  map (fun e => (fst e, put (Path.join p (fst e)) target data (snd e))) es.

(** ** Errors, console, output archive and the state of a job *)

Inductive exn :=
| Error_ (message : string)
| ProcessExit (code : Z)
| Uncaught (message : string).

Inductive result (A : Type) :=
| Ok (a : A)
| Err (e : exn).
Arguments Ok {A} a.
Arguments Err {A} e.

Inductive line :=
| Info (words : list string)
| Warn (words : list string)
| Error (words : list string).

(** One entry queued on the archiver: [archive.append(stream, {name, store})]
    or [archive.file(path, {name})]. *)
Record entry := mkEntry { name : string; source : list byte; store : bool }.

(** The archiver piped into the write stream opened at [dest]. *)
Record archive := mkArchive {
  dest : string;
  zlib_level : float;
  entries : list entry;
  finalized : bool
}.

Inductive method :=
| STORED
| DEFLATED (level : float).

(** The method of an entry: stored when the entry asks for it, and for
    every entry when the level of the archive is 0 (the archiver then stores
    throughout); deflated at the level of the archive otherwise. *)
Definition method_of (a : archive) (e : entry) : method :=
  if store e || PrimFloat.eqb (zlib_level a) 0 then STORED
  else DEFLATED (zlib_level a).

(** [disk]: the temporary directory, when it exists.  [outfile]: what the job
    has opened at its output path, [None] while it has not touched it. *)
Record world := mkWorld {
  disk : option volume;
  outfile : option archive;
  console : list line
}.

(** ** A state and exception monad for the asynchronous functions *)

Definition M (A : Type) : Type := world -> world * result A.

Definition ret {A} (a : A) : M A := fun w => (w, Ok a).

Definition bind {A B} (m : M A) (k : A -> M B) : M B :=
  fun w => match m w with
           | (w', Ok a) => k a w'
           | (w', Err e) => (w', Err e)
           end.

Definition throw {A} (e : exn) : M A := fun w => (w, Err e).

(** [try { body } catch (e) { handler(e.message) }]; [process.exit] is not
    an exception and passes through. *)
Definition try_catch (body : M unit) (handler : string -> M unit) : M unit :=
  fun w => match body w with
           | (w', Err (Error_ msg)) => handler msg w'
           | r => r
           end.

Notation "x <- m ;; k" := (bind m (fun x => k))
  (at level 61, m at next level, right associativity).
Notation "m ;;; k" := (bind m (fun _ => k))
  (at level 61, right associativity).

Fixpoint for_of {A} (l : list A) (body : A -> M unit) : M unit :=
  match l with
  | [] => ret tt
  | x :: l' => body x ;;; for_of l' body
  end.

Definition console_info (ws : list string) : M unit :=
  fun w => (mkWorld (disk w) (outfile w) (console w ++ [Info ws]), Ok tt).
Definition console_warn (ws : list string) : M unit :=
  fun w => (mkWorld (disk w) (outfile w) (console w ++ [Warn ws]), Ok tt).
Definition console_error (ws : list string) : M unit :=
  fun w => (mkWorld (disk w) (outfile w) (console w ++ [Error ws]), Ok tt).

(** ** [fs] and [fs.promises] *)

Module fs.

Definition ENOENT : exn := Error_ "ENOENT: no such file or directory".
Definition EISDIR : exn := Error_ "EISDIR: illegal operation on a directory".
Definition ENOTDIR : exn := Error_ "ENOTDIR: not a directory".

Definition find_node (w : world) (p : string) : option node :=
  match disk w with
  | Some v => lookup v p
  | None => None
  end.

Definition existsSync (p : string) : M bool :=
  fun w => match find_node w p with
           | Some _ => (w, Ok true)
           | None => (w, Ok false)
           end.

Definition readFile (p : string) : M (list byte) :=
  fun w => match find_node w p with
           | Some (File c) => (w, Ok c)
           | Some _ => (w, Err EISDIR)
           | None => (w, Err ENOENT)
           end.

(** Every write of the program follows a read of the same path, so the
    model covers the overwrite of an existing regular file. *)
Definition writeFile (p : string) (data : list byte) : M unit :=
  fun w => match disk w, find_node w p with
           | Some v, Some (File _) =>
               (mkWorld (Some (mkVolume (mount v) (put_in (mount v) p data (top v))))
                        (outfile w) (console w), Ok tt)
           | _, Some _ => (w, Err EISDIR)
           | _, None => (w, Err ENOENT)
           end.

Definition readdir (p : string) : M tree :=
  fun w => match find_node w p with
           | Some (Dir es) => (w, Ok es)
           | Some _ => (w, Err ENOTDIR)
           | None => (w, Err ENOENT)
           end.

(** [stat(p)]: the node itself stands for its [Stats]. *)
Definition stat (p : string) : M node :=
  fun w => match find_node w p with
           | Some n => (w, Ok n)
           | None => (w, Err ENOENT)
           end.

Definition isFile (n : node) : bool :=
  match n with File _ => true | _ => false end.
Definition isDirectory (n : node) : bool :=
  match n with Dir _ => true | _ => false end.

(** [mkdir(p, { recursive: true })]: an existing directory is kept. *)
Definition mkdir (p : string) : M unit :=
  fun w => match disk w with
           | Some _ => (w, Ok tt)
           | None => (mkWorld (Some (mkVolume p [])) (outfile w) (console w), Ok tt)
           end.

(** [rm(p, { recursive: true, force: true })]. *)
Definition rm (p : string) : M unit :=
  fun w => match disk w with
           | Some v => if String.eqb (mount v) p
                       then (mkWorld None (outfile w) (console w), Ok tt)
                       else (w, Ok tt)
           | None => (w, Ok tt)
           end.

End fs.

(** ** The external engines *)

(** How a call into a library ends: with a value, or with an [Error] thrown
    (a rejected promise when the call is awaited). *)
Inductive attempt (A : Type) :=
| Returned (a : A)
| Thrown (message : string).
Arguments Returned {A} a.
Arguments Thrown {A} message.

(** What [terser] resolves to: [{ error, code }]. *)
Record terser_output := mkTerser { error : option string; code : option string }.

Inductive plugin :=
| imageminMozjpeg (quality : float)
| imageminPngquant (quality_min quality_max : float).

(** What [unzipper.Extract] leaves in the destination directory, and the
    error of its stream, if any. *)
Record extraction := mkExtraction { written : tree; failure : option string }.

(** [Math.max] on two numbers: NaN if either is, and [+0] above [-0]. *)
Definition Math_max (a b : float) : float :=
  if (PrimFloat.is_nan a || PrimFloat.is_nan b)%bool then PrimFloat.nan
  else if PrimFloat.ltb a b then b
  else if PrimFloat.ltb b a then a
  else if PrimFloat.get_sign a then b else a.

(** ** The regular expressions of [minifySvg] *)

Module Svg.

(** [\s] and the characters [trim] removes, among the code units of the
    model. *)
Definition is_space (c : ascii) : bool :=
  let n := nat_of_ascii c in
  ((9 <=? n) && (n <=? 13) || (n =? 32) || (n =? 160))%nat.

Fixpoint drop (n : nat) (s : string) : string :=
  match n, s with
  | S k, String _ s' => drop k s'
  | _, _ => s
  end.

(** Length of the shortest prefix of [s] that ends in ["-->"]. *)
Fixpoint close_at (s : string) : option nat :=
  match s with
  | EmptyString => None
  | String _ s' =>
      if prefix "-->" s then Some 3%nat else option_map S (close_at s')
  end.

(** [.replace(/<!--[\s\S]*?-->/g, "")]; [skip] counts the characters of
    the current match still to be dropped. *)
Fixpoint remove_comments (skip : nat) (s : string) : string :=
  match s with
  | EmptyString => EmptyString
  | String c s' =>
      match skip with
      | S k => remove_comments k s'
      | O =>
          if prefix "<!--" s then
            match close_at (drop 4 s) with
            | Some n => remove_comments (3 + n) s'
            | None => String c (remove_comments 0 s')
            end
          else String c (remove_comments 0 s')
      end
  end.

(** [.replace(/\s{2,}/g, " ")]; [in_run] holds inside a run already
    replaced. *)
Fixpoint collapse (in_run : bool) (s : string) : string :=
  match s with
  | EmptyString => EmptyString
  | String c s' =>
      if is_space c then
        if in_run then collapse true s'
        else match s' with
             | String c' _ =>
                 if is_space c' then String " " (collapse true s')
                 else String c (collapse false s')
             | EmptyString => String c EmptyString
             end
      else String c (collapse false s')
  end.

Fixpoint trimStart (s : string) : string :=
  match s with
  | String c s' => if is_space c then trimStart s' else s
  | EmptyString => EmptyString
  end.

Fixpoint trimEnd (s : string) : string :=
  match s with
  | EmptyString => EmptyString
  | String c s' =>
      let r := trimEnd s' in
      if is_space c && String.eqb r "" then EmptyString else String c r
  end.

Definition trim (s : string) : string := trimEnd (trimStart s).

Definition minify (src : string) : string :=
  trim (collapse false (remove_comments 0 src)).

End Svg.

(** ** [Array.prototype.sort] without a comparator

    The elements are compared as strings, code unit by code unit.  On a
    total order in which equal elements are identical the sorted array does
    not depend on the algorithm of the engine; the model sorts by
    insertion. *)

Fixpoint insert (x : string) (l : list string) : list string :=
  match l with
  | [] => [x]
  | y :: l' => if String.leb x y then x :: l else y :: insert x l'
  end.

Fixpoint sort (l : list string) : list string :=
  match l with
  | [] => []
  | x :: l' => insert x (sort l')
  end.

(** ** The program *)

Record process_opts := mkOpts { images : bool; quality : float }.

Record argv := mkArgv {
  positional : list string;
  argv_images : bool;
  argv_quality : float;
  argv_level : float
}.

Definition await {A} (r : attempt A) : M A :=
  fun w => match r with
           | Returned a => (w, Ok a)
           | Thrown message => (w, Err (Error_ message))
           end.

Definition mimetype_missing : string :=
  "No mimetype file found at root of EPUB. Aborting.".

Definition usage : string :=
  "Usage: node epub-compress.js input.epub output.epub [--images] [--quality=75] [--level=9]".

(** The collaborators the program calls into. *)
Class Engines := {
  (** Decoding and encoding of [readFile(_, "utf8")] / [writeFile(_, _, "utf8")]. *)
  utf8_decode : list byte -> string;
  utf8_encode : string -> list byte;
  (** [html-minifier-terser] with the option record of [minifyHtmlFile]. *)
  htmlMinify : string -> attempt string;
  (** [csso.minify(src, { comments: false }).css]. *)
  csso_minify : string -> attempt string;
  (** [terser(src, { compress: true, mangle: true })]. *)
  terser : string -> attempt terser_output;
  (** [imagemin.buffer(input, { plugins })]. *)
  imagemin_buffer : list byte -> list plugin -> attempt (list byte);
  (** [unzipper.Extract] reading the archive at a path. *)
  unzip : string -> extraction;
  (** [fs.createWriteStream(path)]: the error of the stream when the path
      cannot be opened for writing. *)
  open_error : string -> option string;
  (** Whether zlib takes the compression level when the archiver sets up
      the deflate stream of an entry. *)
  deflate_accepts : float -> bool;
  (** What a read stream on the special file at a path delivers. *)
  special_read : string -> attempt (list byte)
}.

Section Program.

Context {engines : Engines}.

(** *** [walk] *)

(** One turn of the loop of [_walk], for the entry at path [full]: a
    directory is walked in its turn, a regular file is pushed (as a symbolic
    link would be, of which the trees have none), a special file is passed
    over. *)
Fixpoint visit (full : string) (entry : node) : list string :=
  match entry with
  | Dir es => flat_map (fun e => visit (Path.join full (fst e)) (snd e)) es
  | File _ => [full]
  | Other => []
  end.

(** [_walk(p)] over the entries [readdir(p)] returned. *)
Definition _walk (p : string) (es : tree) : list string :=
  flat_map (fun e => visit (Path.join p (fst e)) (snd e)) es.

Definition walk (dir : string) : M (list string) :=
  es <- fs.readdir dir ;;
  ret (_walk dir es).

(** *** The transformers *)

Definition minifyHtmlFile (filePath : string) : M unit :=
  src <- fs.readFile filePath ;;
  min <- await (htmlMinify (utf8_decode src)) ;;
  fs.writeFile filePath (utf8_encode min).

Definition minifyCssFile (filePath : string) : M unit :=
  src <- fs.readFile filePath ;;
  out <- await (csso_minify (utf8_decode src)) ;;
  fs.writeFile filePath (utf8_encode out).

Definition minifyJsFile (filePath : string) : M unit :=
  src <- fs.readFile filePath ;;
  r <- await (terser (utf8_decode src)) ;;
  match error r with
  | Some e => throw (Error_ e)
  | None =>
      match code r with
      | Some c => if String.eqb c "" then ret tt
                  else fs.writeFile filePath (utf8_encode c)
      | None => ret tt
      end
  end.

(** The plugin list [optimizeImage] builds; [None] is its early [return]. *)
Definition plugins_for (ext : string) (quality : float) : option (list plugin) :=
  if String.eqb ext ".jpg" || String.eqb ext ".jpeg" then
    Some [imageminMozjpeg quality]
  else if String.eqb ext ".png" then
    Some [imageminPngquant
            (Math_max 0.1%float ((quality - 30) / 100)%float)
            (quality / 100)%float]
  else None.

Definition optimizeImage (filePath : string) (quality : float) : M unit :=
  let ext := toLowerCase (Path.extname filePath) in
  input <- fs.readFile filePath ;;
  match plugins_for ext quality with
  | None => ret tt
  | Some plugins =>
      out <- await (imagemin_buffer input plugins) ;;
      if (List.length out <? List.length input)%nat
      then fs.writeFile filePath out
      else ret tt
  end.

Definition minifySvg (filePath : string) : M unit :=
  src <- fs.readFile filePath ;;
  fs.writeFile filePath (utf8_encode (Svg.minify (utf8_decode src))).

(** *** [processFiles] *)

(** The body of the [try] block for one file. *)
Definition dispatch (opts : process_opts) (filePath rel ext : string) : M unit :=
  if String.eqb ext ".html" || String.eqb ext ".xhtml" || String.eqb ext ".htm"
     || String.eqb ext ".xml" || String.eqb ext ".opf"
  then minifyHtmlFile filePath
  else if String.eqb ext ".css" then minifyCssFile filePath
  else if String.eqb ext ".js" then minifyJsFile filePath
  else if images opts
          && existsb (String.eqb ext) [".jpg"; ".jpeg"; ".png"]
  then optimizeImage filePath (quality opts)
  else if String.eqb ext ".svg" then minifySvg filePath
  else console_warn ["Skipping"; rel].

Definition process_entry (root : string) (opts : process_opts) (filePath : string) : M unit :=
  let rel := Path.relative root filePath in
  let ext := toLowerCase (Path.extname filePath) in
  try_catch (dispatch opts filePath rel ext)
            (fun message => console_warn ["Failed to process"; rel; message]).

Definition processFiles (root : string) (opts : process_opts) : M unit :=
  entries <- walk root ;;
  for_of entries (process_entry root opts).

(** *** [createEpub] *)

(** The archiver and its streams fail outside every promise: a stream
    without an ["error"] listener, or the ["error"] handler of the archive,
    which throws, ends the process with status 1 as an uncaught exception
    that [run().catch] never sees.  This happens while [createEpub] is
    awaiting; the model raises [Uncaught] at the call that queues the entry
    concerned, and the entries written before it are the same. *)

Definition EISDIR_read : string := "EISDIR: illegal operation on a directory, read".
Definition ENOENT_open : string := "ENOENT: no such file or directory, open".
Definition level_out_of_range : string :=
  "RangeError: the value of options.level is out of range".

(** [fs.createWriteStream(outPath)], [archiver("zip", { zlib: { level } })]
    and [archive.pipe(output)]. *)
Definition open_archive (outPath : string) (level : float) : M unit :=
  fun w => match open_error outPath with
           | Some message => (w, Err (Uncaught message))
           | None =>
               (mkWorld (disk w) (Some (mkArchive outPath level [] false)) (console w),
                Ok tt)
           end.

(** The read stream the archiver consumes for an entry. *)
Definition read_stream (p : string) : M (list byte) :=
  fun w => match fs.find_node w p with
           | Some (File c) => (w, Ok c)
           | Some (Dir _) => (w, Err (Uncaught EISDIR_read))
           | Some Other =>
               (w, match special_read p with
                   | Returned data => Ok data
                   | Thrown message => Err (Uncaught message)
                   end)
           | None => (w, Err (Uncaught ENOENT_open))
           end.

(** The archiver writes the entry: stored entries, and every entry at level
    0, need no deflate stream; for the others zlib has to take the level. *)
Definition queue (e : entry) : M unit :=
  fun w => match outfile w with
           | Some a =>
               if store e || PrimFloat.eqb (zlib_level a) 0
                  || deflate_accepts (zlib_level a)
               then
                 (mkWorld (disk w)
                          (Some (mkArchive (dest a) (zlib_level a) (entries a ++ [e])
                                           (finalized a)))
                          (console w), Ok tt)
               else (w, Err (Uncaught level_out_of_range))
           | None => (w, Err (Error_ "archive is not open"))
           end.

(** [archive.append(fs.createReadStream(p), { name, store })]. *)
Definition archive_append (p : string) (entry_name : string) (stored : bool) : M unit :=
  data <- read_stream p ;;
  queue (mkEntry entry_name data stored).

(** [archive.file(p, { name })]. *)
Definition archive_file (p : string) (entry_name : string) : M unit :=
  data <- read_stream p ;;
  queue (mkEntry entry_name data false).

Definition archive_finalize : M unit :=
  fun w => match outfile w with
           | Some a =>
               (mkWorld (disk w)
                        (Some (mkArchive (dest a) (zlib_level a) (entries a) true))
                        (console w), Ok tt)
           | None => (w, Err (Error_ "archive is not open"))
           end.

Definition createEpub (dir outPath : string) (level : float) : M unit :=
  let mimePath := Path.join dir "mimetype" in
  found <- fs.existsSync mimePath ;;
  if negb found then throw (Error_ mimetype_missing)
  else
    open_archive outPath level ;;;
    archive_append mimePath "mimetype" true ;;;
    allFiles <- walk dir ;;
    for_of (sort allFiles)
      (fun file =>
         let rel := Path.relative dir file in
         if String.eqb rel "mimetype" then ret tt
         else
           stat <- fs.stat file ;;
           if fs.isFile stat then archive_file file rel else ret tt) ;;;
    archive_finalize.

(** *** [extractTo], [removeDir], [run] *)

(** The destination is the fresh, empty directory [run] has just made. *)
Definition extractTo (epubPath outDir : string) : M unit :=
  fs.mkdir outDir ;;;
  (fun w => (mkWorld (Some (mkVolume outDir (written (unzip epubPath))))
                     (outfile w) (console w),
             match failure (unzip epubPath) with
             | Some e => Err (Error_ e)
             | None => Ok tt
             end)).

Definition removeDir (dir : string) : M unit := fs.rm dir.

(** [tmpdir] is [os.tmpdir()] and [hex] the twelve digits of
    [crypto.randomBytes(6).toString("hex")]. *)
Definition run (args : argv) (tmpdir hex : string) : M unit :=
  let inPath := nth 0 (positional args) "" in
  let outPath := nth 1 (positional args) "" in
  if String.eqb inPath "" || String.eqb outPath "" then
    console_error [usage] ;;;
    throw (ProcessExit 2)
  else
    console_info ["Compressing"; inPath; "to"; outPath] ;;;
    let tmp := Path.join tmpdir ("epub-compress-" ++ hex) in
    fs.mkdir tmp ;;;
    extractTo inPath tmp ;;;
    processFiles tmp (mkOpts (argv_images args) (argv_quality args)) ;;;
    createEpub tmp outPath (argv_level args) ;;;
    removeDir tmp ;;;
    console_info ["Done:"; outPath].

(** [run().catch((err) => { console.error("Error:", err); process.exit(1); })]:
    the final state and the exit code of the process.  An uncaught
    exception ends the process with status 1 without passing the handler. *)
Definition main (args : argv) (tmpdir hex : string) (w : world) : world * Z :=
  match run args tmpdir hex w with
  | (w', Ok _) => (w', 0%Z)
  | (w', Err (ProcessExit c)) => (w', c)
  | (w', Err (Error_ message)) => (fst (console_error ["Error:"; message] w'), 1%Z)
  | (w', Err (Uncaught _)) => (w', 1%Z)
  end.

End Program.

(** The state in which a job starts: no temporary directory, output path
    untouched, nothing printed. *)
Definition world0 : world := mkWorld None None [].

(** ** A sample job, for running the program on concrete inputs *)

Module Sample.

Definition bytes (s : string) : list byte := list_byte_of_string s.

Definition book : tree :=
  [ ("META-INF", Dir [("container.xml", File (bytes "<container>  </container>"))]);
    ("mimetype", File (bytes "application/epub+zip"));
    ("OEBPS", Dir [ ("style.css", File (bytes "  body{color:red}  "));
                    ("broken.js", File (bytes ") oops"));
                    ("app.js", File (bytes " f() "));
                    ("cover.JPG", File (bytes "0123456789"));
                    ("font.otf", File (bytes "OTTO")) ]);
    ("content.opf", File (bytes "<package>   </package>")) ].

Definition headless : tree :=
  [ ("content.opf", File (bytes "<package>   </package>")) ].

(** Stand-ins for the engines: the markup and style engines squeeze
    blanks, the script engine rejects sources that open with [")"], the
    image engine halves JPEG data and leaves PNG data as long as it was;
    nothing below [/readonly/] can be opened for writing, and zlib takes the
    levels from -1 to 9. *)
Definition engines : Engines := {|
  utf8_decode := string_of_list_byte;
  utf8_encode := list_byte_of_string;
  htmlMinify := fun src => Returned (Svg.collapse false src);
  csso_minify := fun src => Returned (Svg.trim src);
  terser := fun src =>
    if prefix ")" src then Thrown "Unexpected token: punc ())"
    else Returned (mkTerser None (Some (Svg.trim src)));
  imagemin_buffer := fun input plugins =>
    match plugins with
    | imageminMozjpeg _ :: _ => Returned (firstn (List.length input / 2) input)
    | _ => Returned input
    end;
  unzip := fun epubPath =>
    if String.eqb epubPath "book.epub" then mkExtraction book None
    else if String.eqb epubPath "headless.epub" then mkExtraction headless None
    else mkExtraction [] (Some "invalid signature");
  open_error := fun path =>
    if prefix "/readonly/" path then Some "EACCES: permission denied, open" else None;
  deflate_accepts := fun level =>
    PrimFloat.leb (-1)%float level && PrimFloat.leb level 9%float;
  special_read := fun _ => Thrown "EIO: i/o error, read"
|}.

Definition args (inPath : string) (with_images : bool) : argv :=
  mkArgv [inPath; "out.epub"] with_images 80%float 9%float.

Definition tmp : string := "/tmp/epub-compress-a1b2c3d4e5f6".

Definition job (inPath : string) (with_images : bool) : world * Z :=
  @main engines (args inPath with_images) "/tmp" "a1b2c3d4e5f6" world0.

Definition book_world : world := mkWorld (Some (mkVolume tmp book)) None [].

(** The archive the assembler makes of the sample book. *)
Definition book_archive : archive :=
  Eval vm_compute in
    match outfile (fst (@createEpub engines tmp "out.epub" 9%float book_world)) with
    | Some a => a
    | None => mkArchive "" 0%float [] false
    end.

(** The sample book as a second [readdir] could enumerate it. *)
Definition book_reordered : tree :=
  match book with
  | e1 :: e2 :: es => e2 :: e1 :: es
  | _ => book
  end.

End Sample.

(** * Definitions for the statements *)

Definition ascending : list string -> Prop :=
  StronglySorted (fun a b => String.leb a b = true).

Definition retarget (target : string) (data : list byte) (qn : string * node) : string * node :=
  (fst qn, put (fst qn) target data (snd qn)).

(** What [readFile(p)] yields in [w]. *)
Definition content (w : world) (p : string) : result (list byte) :=
  snd (fs.readFile p w).

(** The state [writeFile(g, d)] leaves. *)
Definition overwrite (g : string) (d : list byte) (w : world) : world :=
  fst (fs.writeFile g d w).

(** What a transformer decides from the bytes it read. *)
Inductive verdict :=
| Rewrite (data : list byte)
| Leave
| Raise (message : string).

(** The common shape of the transformers: read the file, decide, and
    overwrite it or not. *)
Definition edit (f : string) (decide : list byte -> verdict) : M unit :=
  src <- fs.readFile f ;;
  match decide src with
  | Rewrite data => fs.writeFile f data
  | Leave => ret tt
  | Raise message => throw (Error_ message)
  end.

Section Verdict_definitions.

Context {engines : Engines}.

Definition html_verdict (c : list byte) : verdict :=
  match htmlMinify (utf8_decode c) with
  | Returned min => Rewrite (utf8_encode min)
  | Thrown message => Raise message
  end.

Definition css_verdict (c : list byte) : verdict :=
  match csso_minify (utf8_decode c) with
  | Returned out => Rewrite (utf8_encode out)
  | Thrown message => Raise message
  end.

Definition js_verdict (c : list byte) : verdict :=
  match terser (utf8_decode c) with
  | Thrown message => Raise message
  | Returned r =>
      match error r, code r with
      | Some e, _ => Raise e
      | None, Some out => if String.eqb out "" then Leave else Rewrite (utf8_encode out)
      | None, None => Leave
      end
  end.

Definition image_verdict (ext : string) (q : float) (c : list byte) : verdict :=
  match plugins_for ext q with
  | None => Leave
  | Some plugins =>
      match imagemin_buffer c plugins with
      | Thrown message => Raise message
      | Returned out =>
          if (List.length out <? List.length c)%nat then Rewrite out else Leave
      end
  end.

Definition svg_verdict (c : list byte) : verdict :=
  Rewrite (utf8_encode (Svg.minify (utf8_decode c))).

End Verdict_definitions.

(** The state after one more line on the console. *)
Definition log_line (l : line) (w : world) : world :=
  mkWorld (disk w) (outfile w) (console w ++ [l]).

(** [w'] differs from [w] at most in the console and in the bytes of the
    regular files at the [touched] paths. *)
Definition frame (touched : string -> Prop) (w w' : world) : Prop :=
  outfile w' = outfile w
  /\ option_map mount (disk w') = option_map mount (disk w)
  /\ (forall p, fs.find_node w' p = None <-> fs.find_node w p = None)
  /\ (forall p, ~ touched p -> content w' p = content w p).

(** The console of [w'] extends the console of [w]. *)
Definition console_grows (w w' : world) : Prop :=
  exists more, console w' = console w ++ more.

(** ** The File Classifier of the specification *)

Inductive action :=
| MinifyMarkup
| MinifyStyle
| MinifyScript
| MinifyVector
| OptimizeRaster
| Skip.

(** The table of the specification, row by row. *)
Definition extension_table : list (string * action) :=
  [ (".html", MinifyMarkup); (".xhtml", MinifyMarkup); (".htm", MinifyMarkup);
    (".xml", MinifyMarkup); (".opf", MinifyMarkup);
    (".css", MinifyStyle);
    (".js", MinifyScript);
    (".svg", MinifyVector);
    (".jpg", OptimizeRaster); (".jpeg", OptimizeRaster); (".png", OptimizeRaster) ].

(** The classifier as the specification words it: look the lower-cased
    extension up; raster optimization only if image optimization is enabled,
    else skip; anything else is skipped. *)
Definition File_Classifier (image_optimization : bool) (ext : string) : action :=
  match find (fun row => String.eqb ext (fst row)) extension_table with
  | Some (_, OptimizeRaster) => if image_optimization then OptimizeRaster else Skip
  | Some (_, a) => a
  | None => Skip
  end.

Section Actions.

Context {engines : Engines}.

(** The transformer behind each action; a skipped file is only reported. *)
Definition perform (a : action) (opts : process_opts) (filePath rel : string) : M unit :=
  match a with
  | MinifyMarkup => minifyHtmlFile filePath
  | MinifyStyle => minifyCssFile filePath
  | MinifyScript => minifyJsFile filePath
  | MinifyVector => minifySvg filePath
  | OptimizeRaster => optimizeImage filePath (quality opts)
  | Skip => console_warn ["Skipping"; rel]
  end.

(** The action the classifier gives the file at [filePath]. *)
Definition action_of (opts : process_opts) (filePath : string) : action :=
  File_Classifier (images opts) (toLowerCase (Path.extname filePath)).

(** The paths whose bytes processing [f] may change. *)
Definition touched_by (opts : process_opts) (f p : string) : Prop :=
  p = f /\ action_of opts f <> Skip.

End Actions.

(** ** One state of the tree under two enumerations

    [readdir] promises no order.  Two trees stand for the same state of the
    directory when they differ only in the order of the entries of their
    directories. *)

Inductive same_node : node -> node -> Prop :=
| same_File c : same_node (File c) (File c)
| same_Other : same_node Other Other
| same_Dir es1 es2 : same_state es1 es2 -> same_node (Dir es1) (Dir es2)
with same_state : tree -> tree -> Prop :=
| same_nil : same_state [] []
| same_cons entry_name n1 n2 es1 es2 :
    same_node n1 n2 -> same_state es1 es2 ->
    same_state ((entry_name, n1) :: es1) ((entry_name, n2) :: es2)
| same_swap e1 e2 es : same_state (e1 :: e2 :: es) (e2 :: e1 :: es)
| same_trans es1 es2 es3 :
    same_state es1 es2 -> same_state es2 es3 -> same_state es1 es3.

Scheme same_node_mut := Induction for same_node Sort Prop
  with same_state_mut := Induction for same_state Sort Prop.

(** No two nodes of the tree have the same path. *)
Definition distinct_paths (dir : string) (t : tree) : Prop :=
  NoDup (map fst (nodes_in dir t)).

(** ** What the assembler reads of the tree *)

(** What a path shows: the bytes of a regular file, a directory, or a
    special file. *)
Inductive sight :=
| Bytes (c : list byte)
| Folder
| Special.

Definition view (n : node) : sight :=
  match n with
  | File c => Bytes c
  | Dir _ => Folder
  | Other => Special
  end.

Definition views (l : list (string * node)) : list (string * sight) :=
  map (fun qn => (fst qn, view (snd qn))) l.

(** What the assembler can tell about path [p]: absent, a regular file with
    its bytes, a directory or a special file. *)
Definition seen (w : world) (p : string) : option sight :=
  option_map view (fs.find_node w p).

(** The entries one pass of the loop of [createEpub] appends for [file]. *)
Definition packed (dir : string) (w : world) (file : string) : list entry :=
  let rel := Path.relative dir file in
  if String.eqb rel "mimetype" then []
  else match seen w file with
       | Some (Bytes c) => [mkEntry rel c false]
       | _ => []
       end.

(** The archiver can write entries that are not stored at this level. *)
Definition level_ok {engines : Engines} (level : float) : bool :=
  PrimFloat.eqb level 0 || deflate_accepts level.

(** The state in which the job has the archive [a] at its output path. *)
Definition with_archive (w : world) (a : archive) : world :=
  mkWorld (disk w) (Some a) (console w).

(** What the read stream on path [p] delivers, by what the path shows. *)
Definition stream_result {engines : Engines} (s : option sight) (p : string)
  : result (list byte) :=
  match s with
  | Some (Bytes c) => Ok c
  | Some Folder => Err (Uncaught EISDIR_read)
  | Some Special =>
      match special_read p with
      | Returned data => Ok data
      | Thrown message => Err (Uncaught message)
      end
  | None => Err (Uncaught ENOENT_open)
  end.

Definition is_nil {A} (l : list A) : bool :=
  match l with
  | [] => true
  | _ => false
  end.

(** The body of the [for (const file of allFiles)] loop of [createEpub]. *)
Definition pass {engines : Engines} (dir : string) (file : string) : M unit :=
  let rel := Path.relative dir file in
  if String.eqb rel "mimetype" then ret tt
  else
    stat <- fs.stat file ;;
    if fs.isFile stat then archive_file file rel else ret tt.

(** The bytes [readFile(p)] gives, none when it fails. *)
Definition bytes_of (w : world) (p : string) : list byte :=
  match snd (fs.readFile p w) with
  | Ok c => c
  | Err _ => []
  end.

(** Entries in ascending order of their names. *)
Definition by_name : list entry -> Prop :=
  StronglySorted (fun e1 e2 => String.leb (name e1) (name e2) = true).

Definition not_mimetype (e : entry) : bool := negb (String.eqb (name e) "mimetype").

(** ** Stages of a job *)

Section Stages.

Context {engines : Engines}.

(** The state [run] reaches once the archive is extracted. *)
Definition extracted (args : argv) (tmpdir hex : string) (w0 : world) : world :=
  let inPath := nth 0 (positional args) "" in
  let outPath := nth 1 (positional args) "" in
  mkWorld (Some (mkVolume (Path.join tmpdir ("epub-compress-" ++ hex))
                          (written (unzip inPath))))
          (outfile w0)
          (console w0 ++ [Info ["Compressing"; inPath; "to"; outPath]]).

(** The state [run] hands to [createEpub]. *)
Definition processed (args : argv) (tmpdir hex : string) (w0 : world) : world :=
  fst (processFiles (Path.join tmpdir ("epub-compress-" ++ hex))
                    (mkOpts (argv_images args) (argv_quality args))
                    (extracted args tmpdir hex w0)).

End Stages.

(** ** Shapes of trees, reports of the loop, tidy text *)

(** A node without the bytes of its files: names, nesting and kinds only. *)
Fixpoint skeleton (n : node) : node :=
  match n with
  | File _ => File []
  | Dir es => Dir (map (fun e => (fst e, skeleton (snd e))) es)
  | Other => Other
  end.

Definition skeleton_in (t : tree) : tree :=
  map (fun e => (fst e, skeleton (snd e))) t.

(** A property of states that neither a write to a file nor a line on the
    console breaks. *)
Definition stable (P : world -> Prop) : Prop :=
  (forall g d w, P w -> P (overwrite g d w))
  /\ (forall l w, P w -> P (log_line l w)).

(** No two neighbouring characters of [s] are both white space. *)
Fixpoint tight (s : string) : bool :=
  match s with
  | String a (String b _ as s') => negb (Svg.is_space a && Svg.is_space b) && tight s'
  | _ => true
  end.

Definition starts_with_space (s : string) : bool :=
  match s with
  | String c _ => Svg.is_space c
  | EmptyString => false
  end.

Fixpoint ends_with_space (s : string) : bool :=
  match s with
  | EmptyString => false
  | String c EmptyString => Svg.is_space c
  | String _ s' => ends_with_space s'
  end.

(** [s] holds the opening of a comment somewhere. *)
Fixpoint has_opener (s : string) : bool :=
  match s with
  | EmptyString => false
  | String _ s' => prefix "<!--" s || has_opener s'
  end.

(** The whole number [n] as a JavaScript number. *)
Definition number_of_nat (n : nat) : float :=
  PrimFloat.of_uint63 (Uint63.of_Z (Z.of_nat n)).

(** The quality range [optimizeImage] hands to pngquant. *)
Definition png_range (q : float) : float * float :=
  match plugins_for ".png" q with
  | Some [imageminPngquant lo hi] => (lo, hi)
  | _ => (PrimFloat.nan, PrimFloat.nan)
  end.

Section Reports.

Context {engines : Engines}.

(** What the loop of [processFiles] prints for the file [f], going by the
    state [w] in which its transformer runs: one warning if the file is
    skipped, one if its transformer throws, nothing otherwise. *)
Definition report (root : string) (opts : process_opts) (w : world) (f : string) : list line :=
  let rel := Path.relative root f in
  match action_of opts f with
  | Skip => [Warn ["Skipping"; rel]]
  | _ =>
      match snd (dispatch opts f rel (toLowerCase (Path.extname f)) w) with
      | Err (Error_ message) => [Warn ["Failed to process"; rel; message]]
      | _ => []
      end
  end.

End Reports.

(** A tree in which [mimetype] is a directory. *)
Definition mimetype_folder : tree :=
  [ ("mimetype", Dir [("readme.txt", File (Sample.bytes "x"))]);
    ("content.opf", File (Sample.bytes "<package/>")) ].

(** * Properties *)

(** ** The model on concrete inputs *)

Example extname_cases :
  map Path.extname
      ["index.html"; "index.coffee.md"; "index."; "index"; ".index"; ".index.md";
       ".."; "/tmp/a.b/mimetype"; "/tmp/x/.html"; "/tmp/x/A.XHTML"]
  = [".html"; ".md"; "."; ""; ""; ".md"; ""; ""; ""; ".XHTML"].
Proof. reflexivity. Qed.

Example relative_case : Path.relative "/tmp/x" "/tmp/x/OEBPS/a.css" = "OEBPS/a.css".
Proof. reflexivity. Qed.

Example sort_case :
  sort ["/t/content.opf"; "/t/a/b.css"; "/t/a.css"; "/t/META-INF/container.xml"]
  = ["/t/META-INF/container.xml"; "/t/a.css"; "/t/a/b.css"; "/t/content.opf"].
Proof. reflexivity. Qed.

Example svg_minify_case :
  Svg.minify "  <svg>  <!-- a --> <g>   <!----></g> <!-- open </svg> "
  = "<svg> <g> </g> <!-- open </svg>".
Proof. reflexivity. Qed.

Example Math_max_cases :
  Math_max 0.1%float 0.5%float = 0.5%float
  /\ Math_max 0.1%float (-0.25)%float = 0.1%float
  /\ PrimFloat.is_nan (Math_max 0.1%float PrimFloat.nan) = true.
Proof. vm_compute. repeat split. Qed.

Example book_archive_names :
  map name (entries Sample.book_archive)
  = ["mimetype"; "META-INF/container.xml"; "OEBPS/app.js"; "OEBPS/broken.js";
     "OEBPS/cover.JPG"; "OEBPS/font.otf"; "OEBPS/style.css"; "content.opf"].
Proof. reflexivity. Qed.

Example book_job_console :
  console (fst (Sample.job "book.epub" false))
  = [Info ["Compressing"; "book.epub"; "to"; "out.epub"];
     Warn ["Skipping"; "mimetype"];
     Warn ["Failed to process"; "OEBPS/broken.js"; "Unexpected token: punc ())"];
     Warn ["Skipping"; "OEBPS/cover.JPG"];
     Warn ["Skipping"; "OEBPS/font.otf"];
     Info ["Done:"; "out.epub"]].
Proof. vm_compute. reflexivity. Qed.

(** ** The code-unit order on strings *)

Lemma ascii_compare_refl (a : ascii) : Ascii.compare a a = Eq.
Proof. unfold Ascii.compare. apply N.compare_refl. Qed.

Lemma compare_append (p a b : string) :
  String.compare (p ++ a) (p ++ b) = String.compare a b.
Proof.
  induction p as [|c p IH]; simpl; [reflexivity|].
  now rewrite ascii_compare_refl.
Qed.

Lemma leb_append (p a b : string) :
  String.leb (p ++ a) (p ++ b) = String.leb a b.
Proof. unfold String.leb. now rewrite compare_append. Qed.

Lemma string_compare_refl (s : string) : String.compare s s = Eq.
Proof.
  induction s as [|c s IH]; simpl; [reflexivity|].
  now rewrite ascii_compare_refl.
Qed.

Lemma leb_refl (s : string) : String.leb s s = true.
Proof. unfold String.leb. now rewrite string_compare_refl. Qed.

Lemma leb_trans (a b c : string) :
  String.leb a b = true -> String.leb b c = true -> String.leb a c = true.
Proof.
  unfold String.leb. revert b c.
  induction a as [|x a IH]; intros [|y b] [|z c]; simpl; try easy.
  unfold Ascii.compare.
  destruct (N.compare_spec (N_of_ascii x) (N_of_ascii y)) as [Hxy|Hxy|Hxy];
    destruct (N.compare_spec (N_of_ascii y) (N_of_ascii z)) as [Hyz|Hyz|Hyz];
    try easy; intros H1 H2.
  - rewrite Hxy, Hyz, N.compare_refl. now apply IH with b.
  - rewrite Hxy. now apply N.compare_lt_iff in Hyz as ->.
  - rewrite <- Hyz. now apply N.compare_lt_iff in Hxy as ->.
  - assert (H : (N_of_ascii x < N_of_ascii z)%N) by lia.
    now apply N.compare_lt_iff in H as ->.
Qed.

(** ** Sorting *)


Lemma insert_perm (x : string) (l : list string) : Permutation (x :: l) (insert x l).
Proof.
  induction l as [|y l IH]; simpl; [reflexivity|].
  destruct (String.leb x y); [reflexivity|].
  rewrite perm_swap. now constructor.
Qed.

Lemma sort_perm (l : list string) : Permutation l (sort l).
Proof.
  induction l as [|x l IH]; simpl; [constructor|].
  rewrite <- insert_perm. now constructor.
Qed.

Lemma insert_ascending (x : string) (l : list string) :
  ascending l -> ascending (insert x l).
Proof.
  unfold ascending. induction 1 as [|y l Hl IH Hy]; simpl.
  - repeat constructor.
  - destruct (String.leb x y) eqn:Hxy.
    + constructor; [now constructor|].
      constructor; [assumption|].
      eapply Forall_impl; [|exact Hy]. intros z Hz. now apply leb_trans with y.
    + constructor; [assumption|].
      assert (Hyx : String.leb y x = true).
      { destruct (String.leb_total x y) as [H|H]; congruence. }
      rewrite Forall_forall in *. intros z Hz.
      apply (Permutation_in _ (Permutation_sym (insert_perm x l))) in Hz.
      destruct Hz as [<-|Hz]; auto.
Qed.

Lemma sort_ascending (l : list string) : ascending (sort l).
Proof.
  induction l as [|x l IH]; simpl; [constructor|]. now apply insert_ascending.
Qed.

(** An ascending arrangement of given strings is unique: whatever algorithm
    sorts, it returns this list. *)
Lemma ascending_unique (l1 l2 : list string) :
  ascending l1 -> ascending l2 -> Permutation l1 l2 -> l1 = l2.
Proof.
  unfold ascending. intros H1. revert l2.
  induction H1 as [|a l1 Hl1 IH Ha]; intros l2 H2 HP.
  - now apply Permutation_nil in HP.
  - destruct H2 as [|b l2 Hl2 Hb].
    + now apply Permutation_sym, Permutation_nil in HP.
    + assert (a = b) as <-.
      { rewrite Forall_forall in Ha, Hb.
        assert (Hin1 : In a (b :: l2)) by (eapply Permutation_in; [exact HP|now left]).
        assert (Hin2 : In b (a :: l1))
          by (eapply Permutation_in; [exact (Permutation_sym HP)|now left]).
        destruct Hin1 as [->|Hin1]; [reflexivity|].
        destruct Hin2 as [->|Hin2]; [reflexivity|].
        apply String.leb_antisym; auto. }
      f_equal. apply IH; [assumption|]. now apply Permutation_cons_inv in HP.
Qed.

Lemma sort_permuted (l1 l2 : list string) :
  Permutation l1 l2 -> sort l1 = sort l2.
Proof.
  intros HP. apply ascending_unique; try apply sort_ascending.
  rewrite <- (sort_perm l1), <- (sort_perm l2). exact HP.
Qed.

(** ** Paths *)

Lemma append_assoc (a b c : string) : ((a ++ b) ++ c = a ++ (b ++ c))%string.
Proof. induction a as [|x a IH]; simpl; [reflexivity|]. now rewrite IH. Qed.

Lemma strip_prefix_append (p s : string) : Path.strip_prefix p (p ++ s) = Some s.
Proof.
  induction p as [|c p IH]; simpl; [reflexivity|].
  now rewrite Ascii.eqb_refl.
Qed.

Lemma relative_join (dir rel : string) : Path.relative dir (Path.join dir rel) = rel.
Proof.
  unfold Path.relative, Path.join.
  now rewrite <- append_assoc, strip_prefix_append.
Qed.

Lemma join_join (p a b : string) :
  Path.join (Path.join p a) b = Path.join p (a ++ "/" ++ b).
Proof. unfold Path.join. now rewrite !append_assoc. Qed.

Lemma list_ascii_of_append (a b : string) :
  list_ascii_of_string (a ++ b) = list_ascii_of_string a ++ list_ascii_of_string b.
Proof. induction a as [|x a IH]; simpl; [reflexivity|]. now rewrite IH. Qed.

(** Inside a last segment that holds no dot, [extname] never meets one. *)
Lemma extname_loop_plain (base rest : list ascii) :
  Forall (fun c => c <> "/"%char /\ c <> "."%char) base ->
  forall i st,
    Path.startDot st = (-1)%Z -> Path.matchedSlash st = false ->
    Path.startDot (Path.extname_loop (base ++ "/"%char :: rest) i st) = (-1)%Z.
Proof.
  induction 1 as [|c base [Hs Hd] _ IH]; intros i st Hdot Hslash; simpl.
  - now rewrite Hslash.
  - apply Ascii.eqb_neq in Hs, Hd. rewrite Hs, Hd.
    destruct (Path.end_ st =? -1)%Z; simpl; rewrite Hdot; simpl; now apply IH.
Qed.

Lemma extname_plain (dir base : string) :
  base <> "" ->
  Forall (fun c => c <> "/"%char /\ c <> "."%char) (list_ascii_of_string base) ->
  Path.extname (Path.join dir base) = "".
Proof.
  intros Hne Hall. unfold Path.extname, Path.join.
  rewrite !list_ascii_of_append, !rev_app_distr. simpl.
  rewrite <- app_assoc. simpl.
  set (i := (Z.of_nat _ - 1)%Z). clearbody i.
  assert (Hrev : Forall (fun c => c <> "/"%char /\ c <> "."%char)
                        (rev (list_ascii_of_string base)))
    by (apply Forall_rev; exact Hall).
  destruct (rev (list_ascii_of_string base)) as [|c l] eqn:E.
  - destruct base; [congruence|]. simpl in E.
    now apply app_eq_nil in E as [_ E].
  - inversion Hrev as [|? ? [Hs Hd] Hl]; subst. simpl.
    apply Ascii.eqb_neq in Hs, Hd. rewrite Hs, Hd. simpl.
    rewrite extname_loop_plain; auto.
Qed.

Lemma extname_mimetype (dir : string) : Path.extname (Path.join dir "mimetype") = "".
Proof.
  apply extname_plain; [discriminate|].
  simpl. repeat constructor; discriminate.
Qed.

(** ** The working tree: paths, lookups and overwrites *)


Lemma nodes_at_put (target : string) (data : list byte) (n : node) :
  forall full,
    nodes_at full (put full target data n) = map (retarget target data) (nodes_at full n).
Proof.
  induction n as [c| |es IH] using node_rect'; intros full; simpl.
  - unfold retarget; simpl. now destruct (String.eqb full target).
  - reflexivity.
  - f_equal. induction IH as [|e es He _ IHes]; simpl; [reflexivity|].
    now rewrite map_app, He, IHes.
Qed.

Lemma nodes_in_put (target : string) (data : list byte) (p : string) (es : tree) :
  nodes_in p (put_in p target data es) = map (retarget target data) (nodes_in p es).
Proof.
  unfold nodes_in, put_in. induction es as [|e es IH]; simpl; [reflexivity|].
  now rewrite map_app, nodes_at_put, IH.
Qed.

Lemma find_retarget (target : string) (data : list byte) (p : string) (l : list (string * node)) :
  option_map snd (find (fun e => String.eqb (fst e) p) (map (retarget target data) l))
  = option_map (put p target data)
               (option_map snd (find (fun e => String.eqb (fst e) p) l)).
Proof.
  induction l as [|[q n] l IH]; simpl; [reflexivity|].
  destruct (String.eqb_spec q p) as [->|Hne]; simpl; [reflexivity|exact IH].
Qed.

Lemma lookup_put (m target : string) (data : list byte) (es : tree) (p : string) :
  lookup (mkVolume m (put_in m target data es)) p
  = option_map (put p target data) (lookup (mkVolume m es) p).
Proof.
  unfold lookup; simpl.
  destruct (String.eqb_spec p m) as [->|Hne]; simpl.
  - reflexivity.
  - now rewrite nodes_in_put, find_retarget.
Qed.

Lemma visit_put (target : string) (data : list byte) (n : node) :
  forall full full', visit full (put full' target data n) = visit full n.
Proof.
  induction n as [c| |es IH] using node_rect'; intros full full'; simpl; try reflexivity.
  - now destruct (String.eqb full' target).
  - induction IH as [|e es He _ IHes]; simpl; [reflexivity|].
    now rewrite He, IHes.
Qed.

Lemma walk_put (target : string) (data : list byte) (p p' : string) (es : tree) :
  _walk p (put_in p' target data es) = _walk p es.
Proof.
  unfold _walk, put_in. induction es as [|e es IH]; simpl; [reflexivity|].
  now rewrite visit_put, IH.
Qed.

(** Every walked path is a regular file of the listing. *)
Lemma visit_nodes (n : node) :
  forall full f, In f (visit full n) -> exists c, In (f, File c) (nodes_at full n).
Proof.
  induction n as [c| |es IH] using node_rect'; intros full f Hin; simpl in *.
  - destruct Hin as [<-|[]]. exists c. now left.
  - destruct Hin.
  - apply in_flat_map in Hin as (e & He & Hf).
    rewrite Forall_forall in IH. destruct (IH e He _ _ Hf) as [c Hc].
    exists c. right. apply in_flat_map. now exists e.
Qed.

Lemma walk_nodes (p : string) (es : tree) (f : string) :
  In f (_walk p es) -> exists c, In (f, File c) (nodes_in p es).
Proof.
  unfold _walk, nodes_in. intros Hin.
  apply in_flat_map in Hin as (e & He & Hf).
  destruct (visit_nodes _ _ _ Hf) as [c Hc].
  exists c. apply in_flat_map. now exists e.
Qed.

(** Every walked path lies below the directory walked. *)
Lemma visit_below (n : node) :
  forall full f, In f (visit full n) -> f = full \/ exists rel, f = Path.join full rel.
Proof.
  induction n as [c| |es IH] using node_rect'; intros full f Hin; simpl in *.
  - destruct Hin as [<-|[]]. now left.
  - destruct Hin.
  - apply in_flat_map in Hin as (e & He & Hf).
    rewrite Forall_forall in IH. right.
    destruct (IH e He _ _ Hf) as [->|[rel ->]].
    + now exists (fst e).
    + rewrite join_join. eauto.
Qed.

Lemma walk_below (p : string) (es : tree) (f : string) :
  In f (_walk p es) -> exists rel, f = Path.join p rel.
Proof.
  unfold _walk. intros Hin.
  apply in_flat_map in Hin as (e & He & Hf).
  destruct (visit_below _ _ _ Hf) as [->|[rel ->]].
  - now exists (fst e).
  - rewrite join_join. eauto.
Qed.

(** ** Reads and writes on the state of a job *)



Lemma content_find (w : world) (p : string) :
  content w p = match fs.find_node w p with
                | Some (File c) => Ok c
                | Some _ => Err fs.EISDIR
                | None => Err fs.ENOENT
                end.
Proof.
  unfold content, fs.readFile. now destruct (fs.find_node w p) as [[]|].
Qed.

Lemma content_Ok (w : world) (p : string) (c : list byte) :
  content w p = Ok c <-> fs.find_node w p = Some (File c).
Proof.
  rewrite content_find. destruct (fs.find_node w p) as [[]|]; split; congruence.
Qed.

Lemma readFile_eq (w : world) (p : string) : fs.readFile p w = (w, content w p).
Proof.
  unfold content, fs.readFile. now destruct (fs.find_node w p) as [[]|].
Qed.

Lemma writeFile_eq (g : string) (d : list byte) (w : world) (c : list byte) :
  content w g = Ok c -> fs.writeFile g d w = (overwrite g d w, Ok tt).
Proof.
  intros H. apply content_Ok in H. unfold overwrite, fs.writeFile.
  rewrite H. unfold fs.find_node in H. now destruct (disk w).
Qed.

Lemma find_node_overwrite (g : string) (d : list byte) (w : world) (c : list byte) :
  content w g = Ok c ->
  forall p, fs.find_node (overwrite g d w) p
            = option_map (put p g d) (fs.find_node w p).
Proof.
  intros H p. apply content_Ok in H. unfold overwrite, fs.writeFile.
  rewrite H. unfold fs.find_node in *.
  destruct (disk w) as [[m es]|]; [|discriminate]. simpl.
  apply lookup_put.
Qed.

Lemma content_overwrite (g : string) (d : list byte) (w : world) (c : list byte) :
  content w g = Ok c ->
  forall p, content (overwrite g d w) p = if String.eqb p g then Ok d else content w p.
Proof.
  intros H p. rewrite !content_find, (find_node_overwrite g d w c H).
  destruct (String.eqb_spec p g) as [->|Hne].
  - apply content_Ok in H. rewrite H. simpl. now rewrite String.eqb_refl.
  - apply String.eqb_neq in Hne.
    destruct (fs.find_node w p) as [[]|]; simpl; try reflexivity.
    now rewrite Hne.
Qed.

Lemma absent_overwrite (g : string) (d : list byte) (w : world) (p : string) :
  fs.find_node (overwrite g d w) p = None <-> fs.find_node w p = None.
Proof.
  destruct (content w g) as [c|e] eqn:H.
  - rewrite (find_node_overwrite g d w c H).
    destruct (fs.find_node w p); simpl; split; congruence.
  - assert (overwrite g d w = w) as ->; [|reflexivity].
    rewrite content_find in H. unfold overwrite, fs.writeFile.
    destruct (disk w), (fs.find_node w g) as [[]|]; try reflexivity; discriminate.
Qed.

Lemma outfile_overwrite (g : string) (d : list byte) (w : world) :
  outfile (overwrite g d w) = outfile w.
Proof.
  unfold overwrite, fs.writeFile.
  now destruct (disk w), (fs.find_node w g) as [[]|].
Qed.

Lemma console_overwrite (g : string) (d : list byte) (w : world) :
  console (overwrite g d w) = console w.
Proof.
  unfold overwrite, fs.writeFile.
  now destruct (disk w), (fs.find_node w g) as [[]|].
Qed.

Lemma mount_overwrite (g : string) (d : list byte) (w : world) :
  option_map mount (disk (overwrite g d w)) = option_map mount (disk w).
Proof.
  unfold overwrite, fs.writeFile.
  destruct (disk w) eqn:E, (fs.find_node w g) as [[]|]; simpl; now rewrite ?E.
Qed.



Lemma edit_eq (f : string) (decide : list byte -> verdict) (w : world) :
  edit f decide w =
  match content w f with
  | Ok c => match decide c with
            | Rewrite data => (overwrite f data w, Ok tt)
            | Leave => (w, Ok tt)
            | Raise message => (w, Err (Error_ message))
            end
  | Err e => (w, Err e)
  end.
Proof.
  unfold edit, bind. rewrite readFile_eq.
  destruct (content w f) as [c|e] eqn:H; [|reflexivity].
  destruct (decide c); try reflexivity.
  now apply writeFile_eq with c.
Qed.

Section Verdicts.

Context {engines : Engines}.

Lemma minifyHtmlFile_edit f w : minifyHtmlFile f w = edit f html_verdict w.
Proof.
  unfold minifyHtmlFile, edit, html_verdict, bind, await.
  destruct (fs.readFile f w) as [w' [c|e]]; [|reflexivity].
  now destruct (htmlMinify (utf8_decode c)).
Qed.

Lemma minifyCssFile_edit f w : minifyCssFile f w = edit f css_verdict w.
Proof.
  unfold minifyCssFile, edit, css_verdict, bind, await.
  destruct (fs.readFile f w) as [w' [c|e]]; [|reflexivity].
  now destruct (csso_minify (utf8_decode c)).
Qed.

Lemma minifyJsFile_edit f w : minifyJsFile f w = edit f js_verdict w.
Proof.
  unfold minifyJsFile, edit, js_verdict, bind, await.
  destruct (fs.readFile f w) as [w' [c|e]]; [|reflexivity].
  destruct (terser (utf8_decode c)) as [r|m]; [|reflexivity].
  destruct (error r); [reflexivity|].
  destruct (code r) as [out|]; [|reflexivity].
  now destruct (String.eqb out "").
Qed.

Lemma optimizeImage_edit f q w :
  optimizeImage f q w = edit f (image_verdict (toLowerCase (Path.extname f)) q) w.
Proof.
  unfold optimizeImage, edit, image_verdict, bind, await.
  destruct (fs.readFile f w) as [w' [c|e]]; [|reflexivity].
  destruct (plugins_for _ q) as [ps|]; [|reflexivity].
  destruct (imagemin_buffer c ps) as [out|m]; [|reflexivity].
  now destruct (List.length out <? List.length c)%nat.
Qed.

Lemma minifySvg_edit f w : minifySvg f w = edit f svg_verdict w.
Proof.
  unfold minifySvg, edit, svg_verdict, bind.
  now destruct (fs.readFile f w) as [w' [c|e]].
Qed.

End Verdicts.

(** ** Frames *)

Lemma find_node_log (l : line) (w : world) (p : string) :
  fs.find_node (log_line l w) p = fs.find_node w p.
Proof. reflexivity. Qed.

Lemma content_log (l : line) (w : world) (p : string) :
  content (log_line l w) p = content w p.
Proof. now rewrite !content_find, find_node_log. Qed.

Lemma frame_refl (touched : string -> Prop) (w : world) : frame touched w w.
Proof. repeat split; auto. Qed.

Lemma frame_trans (touched : string -> Prop) (w1 w2 w3 : world) :
  frame touched w1 w2 -> frame touched w2 w3 -> frame touched w1 w3.
Proof.
  intros (Ho & Hm & Ha & Hc) (Ho' & Hm' & Ha' & Hc').
  repeat split; try congruence.
  - intros H. now apply Ha, Ha'.
  - intros H. now apply Ha', Ha.
  - intros p Hp. now rewrite Hc', Hc.
Qed.

Lemma frame_weaken (t1 t2 : string -> Prop) (w w' : world) :
  (forall p, t1 p -> t2 p) -> frame t1 w w' -> frame t2 w w'.
Proof.
  intros Hsub (Ho & Hm & Ha & Hc). repeat split; auto; apply Ha.
Qed.

Lemma frame_log (touched : string -> Prop) (l : line) (w : world) :
  frame touched w (log_line l w).
Proof. repeat split; auto. intros. apply content_log. Qed.

Lemma frame_overwrite (touched : string -> Prop) (g : string) (d c : list byte) (w : world) :
  touched g -> content w g = Ok c -> frame touched w (overwrite g d w).
Proof.
  intros Hg Hc. repeat split.
  - apply outfile_overwrite.
  - apply mount_overwrite.
  - apply absent_overwrite.
  - apply absent_overwrite.
  - intros p Hp. rewrite (content_overwrite g d w c Hc).
    destruct (String.eqb_spec p g) as [->|]; [contradiction|reflexivity].
Qed.

Lemma content_error (w : world) (p : string) (e : exn) :
  content w p = Err e -> exists message, e = Error_ message.
Proof.
  rewrite content_find.
  destruct (fs.find_node w p) as [[]|]; intros [= <-]; eexists; reflexivity.
Qed.

Section Pipeline.

Context {engines : Engines}.

(** *** [dispatch] against the table *)

Lemma dispatch_perform (opts : process_opts) (filePath rel ext : string) :
  dispatch opts filePath rel ext
  = perform (File_Classifier (images opts) ext) opts filePath rel.
Proof.
  unfold dispatch, File_Classifier, extension_table, find, fst, existsb.
  repeat match goal with
         | |- context [String.eqb ext ?s] =>
             destruct (String.eqb_spec ext s) as [->|?];
             [simpl; try reflexivity; now destruct (images opts)|]
         end.
  simpl. now rewrite andb_false_r.
Qed.

Lemma dispatch_skip (opts : process_opts) (filePath rel : string) :
  action_of opts filePath = Skip ->
  dispatch opts filePath rel (toLowerCase (Path.extname filePath))
  = console_warn ["Skipping"; rel].
Proof. intros H. rewrite dispatch_perform. unfold action_of in H. now rewrite H. Qed.

(** Every transformer is an [edit] of the file it is given. *)
Lemma dispatch_edit (opts : process_opts) (filePath rel : string) :
  action_of opts filePath <> Skip ->
  exists decide, forall w,
      dispatch opts filePath rel (toLowerCase (Path.extname filePath)) w
      = edit filePath decide w.
Proof.
  intros H. rewrite dispatch_perform. unfold action_of in H.
  destruct (File_Classifier _ _); try contradiction; simpl.
  - exists html_verdict. apply minifyHtmlFile_edit.
  - exists css_verdict. apply minifyCssFile_edit.
  - exists js_verdict. apply minifyJsFile_edit.
  - exists svg_verdict. apply minifySvg_edit.
  - eexists. apply optimizeImage_edit.
Qed.

Lemma action_of_dec (opts : process_opts) (filePath : string) :
  {action_of opts filePath = Skip} + {action_of opts filePath <> Skip}.
Proof. destruct (action_of opts filePath); (now left) || (right; discriminate). Qed.

(** *** One file *)

Lemma dispatch_frame (opts : process_opts) (f rel : string) (w : world) :
  frame (touched_by opts f) w
        (fst (dispatch opts f rel (toLowerCase (Path.extname f)) w)).
Proof.
  destruct (action_of_dec opts f) as [Hs|Hs].
  - rewrite dispatch_skip by assumption. apply frame_log.
  - destruct (dispatch_edit opts f rel Hs) as [decide ->].
    rewrite edit_eq. destruct (content w f) as [c|e] eqn:Hc; [|apply frame_refl].
    destruct (decide c); try apply frame_refl.
    simpl. apply frame_overwrite with c; [now split|assumption].
Qed.

(** The outcome for a file depends on the state only through the bytes of
    that file. *)
Lemma dispatch_local (opts : process_opts) (f rel : string) (w1 w2 : world) :
  content w1 f = content w2 f ->
  let r1 := dispatch opts f rel (toLowerCase (Path.extname f)) w1 in
  let r2 := dispatch opts f rel (toLowerCase (Path.extname f)) w2 in
  content (fst r1) f = content (fst r2) f /\ snd r1 = snd r2.
Proof.
  intros H. destruct (action_of_dec opts f) as [Hs|Hs]; simpl.
  - rewrite dispatch_skip by assumption. simpl.
    split; [|reflexivity]. fold (log_line (Warn ["Skipping"; rel]) w1).
    fold (log_line (Warn ["Skipping"; rel]) w2). now rewrite !content_log.
  - destruct (dispatch_edit opts f rel Hs) as [decide Hd].
    rewrite !Hd, !edit_eq, <- H.
    destruct (content w1 f) as [c|e] eqn:Hc; simpl; [|split; congruence].
    destruct (decide c); simpl; try (split; congruence).
    split; [|reflexivity].
    rewrite (content_overwrite f data w1 c Hc).
    rewrite (content_overwrite f data w2 c (eq_sym H)).
    now rewrite String.eqb_refl.
Qed.

Lemma process_entry_eq (root : string) (opts : process_opts) (f : string) (w : world) :
  let rel := Path.relative root f in
  let r := dispatch opts f rel (toLowerCase (Path.extname f)) w in
  process_entry root opts f w =
  match snd r with
  | Ok _ => (fst r, Ok tt)
  | Err (Error_ message) =>
      (log_line (Warn ["Failed to process"; rel; message]) (fst r), Ok tt)
  | Err e => (fst r, Err e)
  end.
Proof.
  simpl. unfold process_entry, try_catch.
  destruct (dispatch _ _ _ _ w) as [w' [[]|[m|c|m]]]; reflexivity.
Qed.

(** A transformer fails with a thrown [Error] only: none ends the process. *)
Lemma dispatch_no_exit (opts : process_opts) (f rel : string) (w : world) (e : exn) :
  snd (dispatch opts f rel (toLowerCase (Path.extname f)) w) = Err e ->
  exists message, e = Error_ message.
Proof.
  destruct (action_of_dec opts f) as [Hs|Hs].
  - rewrite dispatch_skip by assumption. discriminate.
  - destruct (dispatch_edit opts f rel Hs) as [decide ->].
    rewrite edit_eq. destruct (content w f) as [b|e'] eqn:Hc.
    + destruct (decide b); try discriminate. intros [= <-]. eauto.
    + apply content_error in Hc as [m ->]. intros [= <-]. eauto.
Qed.

Lemma process_entry_ok (root : string) (opts : process_opts) (f : string) (w : world) :
  snd (process_entry root opts f w) = Ok tt.
Proof.
  rewrite process_entry_eq.
  pose proof (dispatch_no_exit opts f (Path.relative root f) w) as Hne.
  destruct (snd (dispatch _ _ _ _ w)) as [[]|e]; try reflexivity.
  destruct (Hne e eq_refl) as [m ->]. reflexivity.
Qed.

Lemma process_entry_content (root : string) (opts : process_opts) (f : string) (w : world) (p : string) :
  content (fst (process_entry root opts f w)) p
  = content (fst (dispatch opts f (Path.relative root f)
                           (toLowerCase (Path.extname f)) w)) p.
Proof.
  rewrite process_entry_eq.
  destruct (snd (dispatch _ _ _ _ w)) as [[]|[m|c|m']]; try reflexivity.
  simpl. apply content_log.
Qed.

Lemma process_entry_frame (root : string) (opts : process_opts) (f : string) (w : world) :
  frame (touched_by opts f) w (fst (process_entry root opts f w)).
Proof.
  rewrite process_entry_eq.
  pose proof (dispatch_frame opts f (Path.relative root f) w) as Hf.
  destruct (snd (dispatch _ _ _ _ w)) as [[]|[m|c|m']]; simpl; try exact Hf.
  eapply frame_trans; [exact Hf|apply frame_log].
Qed.

Lemma dispatch_error_unchanged (opts : process_opts) (f rel : string) (w : world) (e : exn) :
  snd (dispatch opts f rel (toLowerCase (Path.extname f)) w) = Err e ->
  fst (dispatch opts f rel (toLowerCase (Path.extname f)) w) = w.
Proof.
  destruct (action_of_dec opts f) as [Hs|Hs].
  - rewrite dispatch_skip by assumption. discriminate.
  - destruct (dispatch_edit opts f rel Hs) as [decide ->].
    rewrite edit_eq. destruct (content w f) as [b|e'] eqn:Hc; [|reflexivity].
    destruct (decide b); try reflexivity. discriminate.
Qed.

Lemma console_grows_refl (w : world) : console_grows w w.
Proof. exists []. now rewrite app_nil_r. Qed.

Lemma console_grows_trans (w1 w2 w3 : world) :
  console_grows w1 w2 -> console_grows w2 w3 -> console_grows w1 w3.
Proof.
  intros [m1 H1] [m2 H2]. exists (m1 ++ m2). now rewrite H2, H1, app_assoc.
Qed.

Lemma console_grows_log (l : line) (w : world) : console_grows w (log_line l w).
Proof. now exists [l]. Qed.

Lemma console_grows_In (w w' : world) (l : line) :
  console_grows w w' -> In l (console w) -> In l (console w').
Proof. intros [more ->] H. apply in_or_app. now left. Qed.

Lemma dispatch_console (opts : process_opts) (f rel : string) (w : world) :
  console_grows w (fst (dispatch opts f rel (toLowerCase (Path.extname f)) w)).
Proof.
  destruct (action_of_dec opts f) as [Hs|Hs].
  - rewrite dispatch_skip by assumption. apply console_grows_log.
  - destruct (dispatch_edit opts f rel Hs) as [decide ->].
    rewrite edit_eq. destruct (content w f) as [b|e'] eqn:Hc; [|apply console_grows_refl].
    destruct (decide b); try apply console_grows_refl.
    simpl. exists []. now rewrite console_overwrite, app_nil_r.
Qed.

Lemma process_entry_console (root : string) (opts : process_opts) (f : string) (w : world) :
  console_grows w (fst (process_entry root opts f w)).
Proof.
  rewrite process_entry_eq.
  pose proof (dispatch_console opts f (Path.relative root f) w) as Hg.
  destruct (snd (dispatch _ _ _ _ w)) as [[]|[m|c|m']]; simpl; try exact Hg.
  eapply console_grows_trans; [exact Hg|apply console_grows_log].
Qed.

(** *** The loop of [processFiles] *)

Lemma for_of_step (root : string) (opts : process_opts) (g : string) (l : list string) (w : world) :
  for_of (g :: l) (process_entry root opts) w
  = for_of l (process_entry root opts) (fst (process_entry root opts g w)).
Proof.
  simpl. unfold bind.
  pose proof (process_entry_ok root opts g w) as Hok.
  destruct (process_entry root opts g w) as [w1 r]. simpl in *. now subst r.
Qed.

Lemma for_of_ok (root : string) (opts : process_opts) (l : list string) :
  forall w, snd (for_of l (process_entry root opts) w) = Ok tt.
Proof.
  induction l as [|g l IH]; intros w; [reflexivity|].
  rewrite for_of_step. apply IH.
Qed.

Lemma for_of_frame (root : string) (opts : process_opts) (l : list string) :
  forall w,
    frame (fun p => In p l /\ action_of opts p <> Skip) w
          (fst (for_of l (process_entry root opts) w)).
Proof.
  induction l as [|g l IH]; intros w; [apply frame_refl|].
  rewrite for_of_step.
  eapply frame_trans.
  - apply frame_weaken with (t1 := touched_by opts g); [|apply process_entry_frame].
    intros p [-> Hp]. split; [now left|assumption].
  - apply frame_weaken with (t1 := fun p => In p l /\ action_of opts p <> Skip);
      [|apply IH].
    intros p [Hin Hp]. split; [now right|assumption].
Qed.

Lemma for_of_console (root : string) (opts : process_opts) (l : list string) :
  forall w, console_grows w (fst (for_of l (process_entry root opts) w)).
Proof.
  induction l as [|g l IH]; intros w; [apply console_grows_refl|].
  rewrite for_of_step.
  eapply console_grows_trans; [apply process_entry_console|apply IH].
Qed.

(** Each file of a duplicate-free list ends as its own transformer, run on
    the initial state, leaves it; a failure is reported on the console. *)
Lemma for_of_each (root : string) (opts : process_opts) (l : list string) :
  NoDup l ->
  forall w0 w,
    (forall f, In f l -> content w f = content w0 f) ->
    forall f, In f l ->
      let final := fst (for_of l (process_entry root opts) w) in
      let alone := dispatch opts f (Path.relative root f)
                            (toLowerCase (Path.extname f)) w0 in
      content final f = content (fst alone) f
      /\ forall message,
          snd alone = Err (Error_ message) ->
          In (Warn ["Failed to process"; Path.relative root f; message]) (console final).
Proof.
  induction 1 as [|g l Hg Hnd IH]; intros w0 w Hsame f Hin; [destruct Hin|].
  cbv zeta. rewrite for_of_step.
  set (w1 := fst (process_entry root opts g w)).
  assert (Hrest : forall p, In p l -> content w1 p = content w0 p).
  { intros p Hp. rewrite <- Hsame by now right.
    apply (process_entry_frame root opts g w).
    intros [-> _]. contradiction. }
  destruct Hin as [<-|Hin]; [|now apply IH].
  destruct (dispatch_local opts g (Path.relative root g) w w0 (Hsame g (or_introl eq_refl)))
    as [Hc Hr].
  split.
  - rewrite <- Hc, <- process_entry_content. fold w1.
    apply (for_of_frame root opts l w1). intros [Hl _]. contradiction.
  - intros message Hm. rewrite <- Hr in Hm.
    apply console_grows_In with w1; [apply for_of_console|].
    unfold w1. rewrite process_entry_eq. simpl. rewrite Hm. simpl.
    apply in_or_app. right. now left.
Qed.

Lemma walk_fst (dir : string) (w : world) : fst (walk dir w) = w.
Proof.
  unfold walk, bind, fs.readdir. now destruct (fs.find_node w dir) as [[]|].
Qed.

Lemma walk_eq (dir : string) (t : tree) (w : world) :
  disk w = Some (mkVolume dir t) -> walk dir w = (w, Ok (_walk dir t)).
Proof.
  intros H. unfold walk, bind, fs.readdir, fs.find_node, lookup.
  rewrite H. simpl. now rewrite String.eqb_refl.
Qed.

Lemma processFiles_eq (root : string) (opts : process_opts) (t : tree) (w : world) :
  disk w = Some (mkVolume root t) ->
  processFiles root opts w = for_of (_walk root t) (process_entry root opts) w.
Proof. intros H. unfold processFiles, bind. now rewrite (walk_eq root t w H). Qed.

(** Whatever the state, [processFiles] changes bytes only at walked paths
    whose action is not [Skip]. *)
Lemma processFiles_frame (root : string) (opts : process_opts) (w : world) :
  frame (fun p => action_of opts p <> Skip) w (fst (processFiles root opts w)).
Proof.
  unfold processFiles, bind.
  pose proof (walk_fst root w) as Hw.
  destruct (walk root w) as [w' [l|e]]; simpl in Hw; subst w'; [|apply frame_refl].
  apply frame_weaken with (t1 := fun p => In p l /\ action_of opts p <> Skip);
    [|apply for_of_frame].
  now intros p [_ Hp].
Qed.

End Pipeline.

(** ** The assembler *)

Lemma seen_content (w : world) (p : string) (c : list byte) :
  seen w p = Some (Bytes c) <-> content w p = Ok c.
Proof.
  rewrite content_Ok. unfold seen.
  destruct (fs.find_node w p) as [[]|]; simpl; split; congruence.
Qed.

Lemma find_key_In {A} (p : string) (l : list (string * A)) (x : A) :
  In (p, x) l -> find (fun e => String.eqb (fst e) p) l <> None.
Proof.
  intros Hin Hnone.
  pose proof (find_none _ _ Hnone _ Hin) as H. simpl in H.
  now rewrite String.eqb_refl in H.
Qed.

Lemma walk_found (dir : string) (t : tree) (w : world) (f : string) :
  disk w = Some (mkVolume dir t) -> In f (_walk dir t) -> seen w f <> None.
Proof.
  intros Hd Hin. unfold seen, fs.find_node, lookup. rewrite Hd. simpl.
  destruct (String.eqb f dir); [discriminate|].
  destruct (walk_nodes _ _ _ Hin) as [c Hc].
  apply find_key_In in Hc.
  destruct (find _ _); [discriminate|contradiction].
Qed.

Lemma world_eta (w : world) (a : archive) (es : list entry) :
  outfile w = Some a -> es = entries a ->
  mkWorld (disk w) (Some (mkArchive (dest a) (zlib_level a) es (finalized a))) (console w)
  = w.
Proof. intros Ho ->. destruct w, a; simpl in *. now subst. Qed.

Section Assembler.

Context {engines : Engines}.

Lemma read_stream_eq (p : string) (w : world) :
  read_stream p w = (w, stream_result (seen w p) p).
Proof.
  unfold read_stream, stream_result, seen.
  destruct (fs.find_node w p) as [[]|]; simpl; try reflexivity.
Qed.

(** One pass of the loop: nothing for [mimetype] and for what is not a
    regular file; otherwise the entry is written if zlib takes the level,
    and the process dies if it does not. *)
Lemma pass_eq (dir file : string) (w : world) (a : archive) :
  outfile w = Some a -> seen w file <> None ->
  pass dir file w =
  match packed dir w file with
  | [] => (w, Ok tt)
  | es =>
      if level_ok (zlib_level a)
      then (mkWorld (disk w)
                    (Some (mkArchive (dest a) (zlib_level a) (entries a ++ es)
                                     (finalized a)))
                    (console w), Ok tt)
      else (w, Err (Uncaught level_out_of_range))
  end.
Proof.
  intros Ho Hs. unfold pass, packed.
  destruct (String.eqb (Path.relative dir file) "mimetype"); [reflexivity|].
  unfold bind at 1. unfold fs.stat. unfold seen in *.
  destruct (fs.find_node w file) as [[c|es|]|] eqn:E; simpl; try reflexivity.
  - unfold archive_file, bind. rewrite read_stream_eq. unfold seen. rewrite E. simpl.
    unfold queue. rewrite Ho. simpl. unfold level_ok. reflexivity.
  - now destruct Hs.
Qed.

Lemma passes_eq (dir : string) (files : list string) :
  forall (w : world) (a : archive),
    outfile w = Some a ->
    (forall f, In f files -> seen w f <> None) ->
    for_of files (pass dir) w =
    if level_ok (zlib_level a) || is_nil (flat_map (packed dir w) files)
    then (mkWorld (disk w)
                  (Some (mkArchive (dest a) (zlib_level a)
                                   (entries a ++ flat_map (packed dir w) files)
                                   (finalized a)))
                  (console w), Ok tt)
    else (w, Err (Uncaught level_out_of_range)).
Proof.
  induction files as [|f files IH]; intros w a Ho Hs.
  - simpl. rewrite orb_true_r. unfold ret.
    now rewrite (world_eta w a) by (assumption || now rewrite app_nil_r).
  - cbn [for_of flat_map]. unfold bind.
    rewrite (pass_eq dir f w a Ho) by (apply Hs; now left).
    assert (Hrest : forall g, In g files -> seen w g <> None)
      by (intros g Hg; apply Hs; now right).
    destruct (packed dir w f) as [|e es] eqn:Hp.
    + rewrite (IH w a Ho Hrest). reflexivity.
    + destruct (level_ok (zlib_level a)) eqn:Hl; [|reflexivity].
      rewrite (IH _ (mkArchive (dest a) (zlib_level a)
                               (entries a ++ e :: es) (finalized a)))
        by (reflexivity || exact Hrest).
      cbn [zlib_level dest entries finalized disk console orb]. rewrite Hl. simpl.
      now rewrite <- app_assoc.
Qed.

(** What [createEpub] does, by what it finds at [dir/mimetype], whether the
    output path opens, and whether zlib takes the level. *)
Lemma createEpub_eq (dir outPath : string) (level : float) (t : tree) (w : world) :
  disk w = Some (mkVolume dir t) ->
  createEpub dir outPath level w =
  match seen w (Path.join dir "mimetype") with
  | None => (w, Err (Error_ mimetype_missing))
  | Some s =>
      match open_error outPath with
      | Some message => (w, Err (Uncaught message))
      | None =>
          match stream_result (Some s) (Path.join dir "mimetype") with
          | Err e => (with_archive w (mkArchive outPath level [] false), Err e)
          | Ok c =>
              if level_ok level
                 || is_nil (flat_map (packed dir w) (sort (_walk dir t)))
              then (with_archive w
                      (mkArchive outPath level
                         (mkEntry "mimetype" c true
                          :: flat_map (packed dir w) (sort (_walk dir t))) true),
                    Ok tt)
              else (with_archive w
                      (mkArchive outPath level [mkEntry "mimetype" c true] false),
                    Err (Uncaught level_out_of_range))
          end
      end
  end.
Proof.
  intros Hd. unfold with_archive.
  set (others := flat_map (packed dir w) (sort (_walk dir t))).
  set (mime := Path.join dir "mimetype"). unfold createEpub. fold mime.
  unfold bind at 1. unfold fs.existsSync.
  assert (Hseen : seen w mime = option_map view (fs.find_node w mime)) by reflexivity.
  destruct (fs.find_node w mime) as [n|] eqn:Hm; rewrite Hseen;
    cbn -[stream_result level_ok is_nil]; [|reflexivity].
  unfold bind at 1. unfold open_archive.
  destruct (open_error outPath) as [message|]; [reflexivity|].
  unfold bind at 1. unfold archive_append, bind at 1.
  rewrite read_stream_eq.
  change (seen (mkWorld (disk w) ?o ?c) ?p) with (seen w p).
  rewrite Hseen. cbn [option_map].
  destruct (stream_result (Some (view n)) mime) as [c|e]; [|reflexivity].
  unfold queue. cbn -[stream_result level_ok is_nil].
  unfold bind at 1.
  rewrite (walk_eq dir t) by exact Hd.
  unfold bind at 1.
  fold (pass dir).
  rewrite (passes_eq dir (sort (_walk dir t)) _
             (mkArchive outPath level [mkEntry "mimetype" c true] false));
    [|reflexivity|].
  - cbn [zlib_level dest entries finalized disk console].
    change (flat_map (packed dir (mkWorld (disk w) ?o ?c0)) ?l)
      with (flat_map (packed dir w) l).
    fold others.
    destruct (level_ok level || is_nil others); reflexivity.
  - intros f Hf. apply (walk_found dir t); [exact Hd|].
    eapply Permutation_in; [apply Permutation_sym, sort_perm|exact Hf].
Qed.

End Assembler.

(** ** The order of the entries *)

Lemma leb_join (dir r r' : string) :
  String.leb (Path.join dir r) (Path.join dir r') = String.leb r r'.
Proof.
  unfold Path.join. now rewrite !leb_append.
Qed.

Lemma packed_In (dir : string) (w : world) (f : string) (e : entry) :
  In e (packed dir w f) ->
  name e = Path.relative dir f /\ store e = false
  /\ content w f = Ok (source e) /\ not_mimetype e = true.
Proof.
  unfold packed, not_mimetype.
  destruct (String.eqb (Path.relative dir f) "mimetype") eqn:Hm; [intros []|].
  destruct (seen w f) as [[c| |]|] eqn:Hs.
  - intros [<-|[]]. simpl. rewrite Hm. repeat split. now apply seen_content.
  - intros [].
  - intros [].
  - intros [].
Qed.

Lemma packed_by_name (dir : string) (w : world) (l : list string) :
  ascending l ->
  (forall f, In f l -> exists rel, f = Path.join dir rel) ->
  by_name (flat_map (packed dir w) l).
Proof.
  unfold ascending, by_name.
  induction 1 as [|f l Hl IH Hf]; intros Hbelow; simpl; [constructor|].
  assert (IH' := IH (fun g Hg => Hbelow g (or_intror Hg))).
  unfold packed at 1.
  destruct (String.eqb (Path.relative dir f) "mimetype"); [exact IH'|].
  destruct (seen w f) as [[c| |]|]; try exact IH'.
  simpl. constructor; [exact IH'|].
  apply Forall_forall. intros e He. simpl.
  apply in_flat_map in He as (g & Hg & He).
  apply packed_In in He as (-> & _).
  rewrite Forall_forall in Hf.
  destruct (Hbelow f (or_introl eq_refl)) as [r ->].
  destruct (Hbelow g (or_intror Hg)) as [r' ->].
  rewrite !relative_join. rewrite <- (leb_join dir). now apply Hf.
Qed.

(** ** One state, two enumerations *)

Lemma views_app (l1 l2 : list (string * node)) : views (l1 ++ l2) = views l1 ++ views l2.
Proof. apply map_app. Qed.

Lemma same_state_listing (es1 es2 : tree) :
  same_state es1 es2 ->
  forall p, Permutation (views (nodes_in p es1)) (views (nodes_in p es2))
            /\ Permutation (_walk p es1) (_walk p es2).
Proof.
  revert es1 es2.
  apply (same_state_mut
           (fun n1 n2 _ =>
              forall full,
                Permutation (views (nodes_at full n1)) (views (nodes_at full n2))
                /\ Permutation (visit full n1) (visit full n2))
           (fun es1 es2 _ =>
              forall p,
                Permutation (views (nodes_in p es1)) (views (nodes_in p es2))
                /\ Permutation (_walk p es1) (_walk p es2))).
  - intros c full. split; reflexivity.
  - intros full. split; reflexivity.
  - intros es1 es2 _ IH full. destruct (IH full) as [Hn Hw]. split.
    + simpl. now constructor.
    + exact Hw.
  - intros p. split; constructor.
  - intros entry_name n1 n2 es1 es2 _ IHn _ IHs p. unfold nodes_in, _walk. simpl.
    destruct (IHn (Path.join p entry_name)) as [Hn Hw].
    destruct (IHs p) as [Hn' Hw'].
    split.
    + rewrite !views_app. now apply Permutation_app.
    + now apply Permutation_app.
  - intros e1 e2 es p. unfold nodes_in, _walk. simpl. split.
    + rewrite !app_assoc, !views_app. apply Permutation_app_tail, Permutation_app_comm.
    + rewrite !app_assoc. apply Permutation_app_tail, Permutation_app_comm.
  - intros es1 es2 es3 _ IH12 _ IH23 p. destruct (IH12 p), (IH23 p).
    split; eapply Permutation_trans; eassumption.
Qed.

Lemma find_views (p : string) (l : list (string * node)) :
  option_map view (option_map snd (find (fun e => String.eqb (fst e) p) l))
  = option_map snd (find (fun e => String.eqb (fst e) p) (views l)).
Proof.
  induction l as [|[q n] l IH]; simpl; [reflexivity|].
  now destruct (String.eqb q p).
Qed.

Lemma NoDup_keys_eq {A} (l : list (string * A)) (x y : string * A) :
  NoDup (map fst l) -> In x l -> In y l -> fst x = fst y -> x = y.
Proof.
  induction l as [|z l IH]; intros Hnd Hx Hy Hxy; [destruct Hx|].
  inversion Hnd as [|? ? Hz Hl]; subst.
  destruct Hx as [->|Hx], Hy as [->|Hy]; auto.
  - destruct Hz. rewrite Hxy. now apply in_map.
  - destruct Hz. rewrite <- Hxy. now apply in_map.
Qed.

Lemma find_permuted {A} (p : string) (l1 l2 : list (string * A)) :
  NoDup (map fst l1) -> Permutation l1 l2 ->
  find (fun e => String.eqb (fst e) p) l1 = find (fun e => String.eqb (fst e) p) l2.
Proof.
  intros Hnd HP.
  destruct (find _ l1) as [x|] eqn:H1, (find _ l2) as [y|] eqn:H2; auto.
  - apply find_some in H1 as [Hx Hpx], H2 as [Hy Hpy].
    apply String.eqb_eq in Hpx, Hpy. f_equal.
    apply (NoDup_keys_eq l1); auto.
    + eapply Permutation_in; [apply Permutation_sym, HP|exact Hy].
    + congruence.
  - apply find_some in H1 as [Hx Hpx].
    apply (Permutation_in _ HP) in Hx.
    pose proof (find_none _ _ H2 _ Hx). congruence.
  - apply find_some in H2 as [Hy Hpy].
    apply (Permutation_in _ (Permutation_sym HP)) in Hy.
    pose proof (find_none _ _ H1 _ Hy). congruence.
Qed.

Lemma views_keys (l : list (string * node)) : map fst (views l) = map fst l.
Proof. unfold views. rewrite map_map. reflexivity. Qed.

(** Under either enumeration the assembler sees the same thing at every
    path. *)
Lemma seen_same_state (dir : string) (t1 t2 : tree) (o1 o2 : option archive)
      (l1 l2 : list line) (p : string) :
  same_state t1 t2 -> distinct_paths dir t1 ->
  seen (mkWorld (Some (mkVolume dir t1)) o1 l1) p
  = seen (mkWorld (Some (mkVolume dir t2)) o2 l2) p.
Proof.
  intros Hs Hd. unfold seen, fs.find_node, lookup. simpl.
  destruct (String.eqb p dir); [reflexivity|].
  rewrite !find_views. f_equal.
  apply find_permuted.
  - rewrite views_keys. exact Hd.
  - now apply same_state_listing.
Qed.

(** ** The job *)

Section Job.

Context {engines : Engines}.

Lemma processFiles_ok (root : string) (opts : process_opts) (t : tree) (w : world) :
  disk w = Some (mkVolume root t) -> snd (processFiles root opts w) = Ok tt.
Proof. intros H. rewrite (processFiles_eq root opts t w H). apply for_of_ok. Qed.

Lemma run_eq (args : argv) (tmpdir hex : string) (w0 : world) :
  let inPath := nth 0 (positional args) "" in
  let outPath := nth 1 (positional args) "" in
  let tmp := Path.join tmpdir ("epub-compress-" ++ hex) in
  inPath <> "" -> outPath <> "" ->
  run args tmpdir hex w0 =
  match failure (unzip inPath) with
  | Some e => (extracted args tmpdir hex w0, Err (Error_ e))
  | None =>
      match createEpub tmp outPath (argv_level args) (processed args tmpdir hex w0) with
      | (w3, Ok _) => (log_line (Info ["Done:"; outPath]) (fst (removeDir tmp w3)), Ok tt)
      | (w3, Err e) => (w3, Err e)
      end
  end.
Proof.
  intros inPath outPath tmp Hin Hout. unfold run.
  fold inPath outPath tmp.
  apply String.eqb_neq in Hin, Hout. rewrite Hin, Hout. cbn [orb].
  unfold processed, extracted. fold inPath outPath tmp.
  unfold bind at 1, console_info at 1.
  unfold bind at 1, fs.mkdir at 1. cbn [disk outfile console].
  assert (Hx : forall (w : world) (k : M unit),
             (extractTo inPath tmp ;;; k) w
             = match failure (unzip inPath) with
               | Some e =>
                   (mkWorld (Some (mkVolume tmp (written (unzip inPath))))
                            (outfile w) (console w), Err (Error_ e))
               | None =>
                   k (mkWorld (Some (mkVolume tmp (written (unzip inPath))))
                              (outfile w) (console w))
               end).
  { intros w k. unfold bind, extractTo, bind, fs.mkdir.
    destruct (disk w) eqn:E; cbn [disk outfile console];
      destruct (failure (unzip inPath)); reflexivity. }
  destruct (disk w0) eqn:E; rewrite Hx; cbn [disk outfile console].
  all: destruct (failure (unzip inPath)) as [e|]; [reflexivity|].
  all: unfold bind at 1.
  all: match goal with
       | |- context [processFiles ?d ?o ?w] =>
           pose proof (processFiles_ok d o _ w eq_refl) as Hok;
           destruct (processFiles d o w) as [w2 r2]
       end.
  all: simpl in Hok; subst r2; cbn [fst].
  all: unfold bind at 1.
  all: destruct (createEpub tmp outPath (argv_level args) w2) as [w3 [[]|e]];
    [|reflexivity].
  all: unfold bind, removeDir, console_info, log_line.
  all: destruct (fs.rm tmp w3) as [w4 [[]|e]] eqn:Hrm; [reflexivity|].
  all: unfold fs.rm in Hrm; destruct (disk w3) as [v'|]; [|discriminate].
  all: destruct (String.eqb (mount v') tmp); discriminate.
Qed.

Lemma frame_disk (touched : string -> Prop) (w w' : world) (d : string) (t : tree) :
  frame touched w w' -> disk w = Some (mkVolume d t) ->
  exists t', disk w' = Some (mkVolume d t').
Proof.
  intros (_ & Hm & _) Hd. rewrite Hd in Hm. simpl in Hm.
  destruct (disk w') as [[m t']|]; [|discriminate].
  injection Hm as ->. now exists t'.
Qed.

Lemma action_of_mimetype (opts : process_opts) (dir : string) :
  action_of opts (Path.join dir "mimetype") = Skip.
Proof. unfold action_of. now rewrite extname_mimetype. Qed.

Lemma processed_frame (args : argv) (tmpdir hex : string) (w0 : world) :
  frame (fun p => action_of (mkOpts (argv_images args) (argv_quality args)) p <> Skip)
        (extracted args tmpdir hex w0) (processed args tmpdir hex w0).
Proof. apply processFiles_frame. Qed.

Lemma processed_disk (args : argv) (tmpdir hex : string) (w0 : world) :
  exists t', disk (processed args tmpdir hex w0)
             = Some (mkVolume (Path.join tmpdir ("epub-compress-" ++ hex)) t').
Proof.
  eapply frame_disk; [apply processed_frame|reflexivity].
Qed.


End Job.

(** ** The files the assembler reads *)

Lemma join_neq (dir rel : string) : Path.join dir rel <> dir.
Proof.
  unfold Path.join. induction dir as [|a dir IH]; simpl; [discriminate|].
  intros [= H]. now apply IH.
Qed.

Lemma join_inj (dir a b : string) : Path.join dir a = Path.join dir b -> a = b.
Proof.
  intros H. apply (f_equal (Path.relative dir)) in H.
  now rewrite !relative_join in H.
Qed.

Lemma bytes_of_content (w : world) (p : string) (c : list byte) :
  content w p = Ok c -> bytes_of w p = c.
Proof. unfold content, bytes_of. now intros ->. Qed.

(** In a tree whose paths are distinct, a path that [walk] lists reads as
    the regular file found there. *)
Lemma walk_content (dir : string) (t : tree) (w : world) (f : string) :
  disk w = Some (mkVolume dir t) ->
  distinct_paths dir t ->
  In f (_walk dir t) ->
  exists c, In (f, File c) (nodes_in dir t) /\ content w f = Ok c.
Proof.
  intros Hd Hnd Hin. destruct (walk_nodes _ _ _ Hin) as [c Hc].
  exists c. split; [exact Hc|].
  apply content_Ok. unfold fs.find_node. rewrite Hd. unfold lookup. simpl.
  destruct (String.eqb_spec f dir) as [->|_].
  { destruct (walk_below _ _ _ Hin) as [rel Hrel]. symmetry in Hrel.
    now apply join_neq in Hrel. }
  destruct (find (fun e => String.eqb (fst e) f) (nodes_in dir t)) as [x|] eqn:Hf.
  - apply find_some in Hf as [Hx Hk]. apply String.eqb_eq in Hk.
    now rewrite (NoDup_keys_eq _ x (f, File c) Hnd Hx Hc Hk).
  - exfalso. now apply (find_key_In f _ _ Hc).
Qed.

(** The loop of [createEpub] over walked paths appends one entry for each
    path other than [dir/mimetype], in the order of the paths. *)
Lemma packed_all (dir : string) (t : tree) (w : world) (l : list string) :
  disk w = Some (mkVolume dir t) ->
  distinct_paths dir t ->
  (forall f, In f l -> In f (_walk dir t)) ->
  flat_map (packed dir w) l
  = map (fun f => mkEntry (Path.relative dir f) (bytes_of w f) false)
        (filter (fun f => negb (String.eqb f (Path.join dir "mimetype"))) l).
Proof.
  intros Hd Hnd. induction l as [|f l IH]; intros Hl; [reflexivity|].
  simpl. rewrite IH by (intros g Hg; apply Hl; now right).
  assert (Hf : In f (_walk dir t)) by (apply Hl; now left).
  destruct (walk_content dir t w f Hd Hnd Hf) as (c & _ & Hc).
  destruct (walk_below _ _ _ Hf) as [rel ->].
  unfold packed at 1. rewrite relative_join.
  destruct (String.eqb_spec rel "mimetype") as [->|Hne].
  - now rewrite String.eqb_refl.
  - destruct (String.eqb_spec (Path.join dir rel) (Path.join dir "mimetype")) as [He|_].
    { now apply join_inj in He. }
    apply seen_content in Hc as Hs. rewrite Hs. cbn [negb filter map app].
    now rewrite relative_join, (bytes_of_content _ _ _ Hc).
Qed.

Lemma filter_all {A} (f : A -> bool) (l : list A) :
  Forall (fun x => f x = true) l -> filter f l = l.
Proof. induction 1 as [|x l Hx _ IH]; simpl; [reflexivity|]. now rewrite Hx, IH. Qed.

Lemma packed_not_mimetype (dir : string) (w : world) (l : list string) :
  filter not_mimetype (flat_map (packed dir w) l) = flat_map (packed dir w) l.
Proof.
  apply filter_all, Forall_forall. intros e He.
  apply in_flat_map in He as (f & _ & He). now apply packed_In in He.
Qed.

(** * The properties the specification states *)

Section Claims.

Context {engines : Engines}.

(** C1.  For every valid EPUB input, one whose extracted tree holds a
    root-level [mimetype] file (of content [c], for a valid EPUB the bytes
    [application/epub+zip]), [processFiles] leaves that file as extraction
    wrote it, and the archive the job writes at its output path, once the
    path could be opened, has as its first entry one named [mimetype], stored
    without compression whatever the compression level passed, with exactly
    the bytes [c]; when zlib takes the level the job ends with status 0 and
    the archive is finalized.  When the output path cannot be opened the
    process ends with status 1 and no archive is written. *)
Theorem mimetype_entry_first_stored_untransformed
        (args : argv) (tmpdir hex : string) (w0 : world) (c : list byte) :
  let inPath := nth 0 (positional args) "" in
  let outPath := nth 1 (positional args) "" in
  let tmp := Path.join tmpdir ("epub-compress-" ++ hex) in
  inPath <> "" -> outPath <> "" ->
  failure (unzip inPath) = None ->
  lookup (mkVolume tmp (written (unzip inPath))) (Path.join tmp "mimetype")
  = Some (File c) ->
  let done := main args tmpdir hex w0 in
  content (processed args tmpdir hex w0) (Path.join tmp "mimetype") = Ok c
  /\ (open_error outPath = None ->
      exists a first rest,
        outfile (fst done) = Some a
        /\ dest a = outPath
        /\ zlib_level a = argv_level args
        /\ entries a = first :: rest
        /\ name first = "mimetype"
        /\ method_of a first = STORED
        /\ source first = c
        /\ (level_ok (argv_level args) = true ->
            snd done = 0%Z /\ finalized a = true))
  /\ (forall message,
        open_error outPath = Some message ->
        snd done = 1%Z /\ outfile (fst done) = outfile w0).
Proof.
  intros inPath outPath tmp Hin Hout Hfail Hmime done.
  assert (Hc : content (processed args tmpdir hex w0) (Path.join tmp "mimetype") = Ok c).
  { destruct (processed_frame args tmpdir hex w0) as (_ & _ & _ & Hkeep).
    rewrite Hkeep.
    - apply content_Ok. exact Hmime.
    - intros H. apply H. apply action_of_mimetype. }
  split; [exact Hc|].
  unfold done, main. rewrite run_eq by assumption.
  fold inPath outPath tmp. rewrite Hfail.
  destruct (processed_disk args tmpdir hex w0) as [t' Hd]. fold tmp in Hd.
  rewrite (createEpub_eq tmp outPath (argv_level args) t'
             (processed args tmpdir hex w0) Hd).
  apply seen_content in Hc as Hs. rewrite Hs.
  split.
  - intros ->. cbn [stream_result].
    destruct (level_ok (argv_level args)) eqn:Hl; cbn [orb].
    + eexists _, _, _. split.
      { unfold removeDir, fs.rm, with_archive. simpl. rewrite Hd. simpl.
        rewrite String.eqb_refl. reflexivity. }
      unfold method_of. simpl. repeat split.
    + destruct (is_nil _).
      * eexists _, _, _. split.
        { unfold removeDir, fs.rm, with_archive. simpl. rewrite Hd. simpl.
          rewrite String.eqb_refl. reflexivity. }
        unfold method_of. simpl. repeat split; discriminate.
      * eexists _, _, _. split; [reflexivity|].
        unfold method_of. simpl. repeat split; discriminate.
  - intros message ->. simpl. split; [reflexivity|].
    destruct (processed_frame args tmpdir hex w0) as (Ho & _). exact Ho.
Qed.


(** C2.  In every run of the assembler the entries of the archive other
    than [mimetype] come in ascending (code-unit lexicographic) order of
    their names; the name of each is the path of a file of the tree relative
    to the root, its bytes are the bytes of that file, and it is deflated at
    the level the caller passed (stored at level 0).  A run that returns has
    appended one such entry for every walked file other than [mimetype], in
    the sorted order of the full paths, and finalized the archive; and the
    run returns whenever [mimetype] is a regular file, the output path opens
    and zlib takes the level. *)
Theorem other_entries_sorted_by_relative_path
        (dir outPath : string) (level : float) (t : tree) (log : list line) :
  let w := mkWorld (Some (mkVolume dir t)) None log in
  let run := createEpub dir outPath level w in
  let files := filter (fun f => negb (String.eqb f (Path.join dir "mimetype")))
                      (sort (_walk dir t)) in
  (forall a,
      outfile (fst run) = Some a ->
      let others := filter not_mimetype (entries a) in
      by_name others
      /\ Forall (fun e =>
                   method_of a e
                   = (if PrimFloat.eqb level 0 then STORED else DEFLATED level)
                   /\ exists file,
                       In file (_walk dir t)
                       /\ name e = Path.relative dir file
                       /\ content w file = Ok (source e))
                others)
  /\ (distinct_paths dir t ->
      snd run = Ok tt ->
      exists a,
        outfile (fst run) = Some a
        /\ finalized a = true
        /\ filter not_mimetype (entries a)
           = map (fun f => mkEntry (Path.relative dir f) (bytes_of w f) false) files)
  /\ (forall c,
        content w (Path.join dir "mimetype") = Ok c ->
        open_error outPath = None ->
        level_ok level = true ->
        snd run = Ok tt).
Proof.
  intros w run files. unfold run.
  rewrite (createEpub_eq dir outPath level t w eq_refl).
  assert (Hsorted : forall f, In f (sort (_walk dir t)) -> In f (_walk dir t)).
  { intros f Hf. eapply Permutation_in; [apply Permutation_sym, sort_perm|exact Hf]. }
  split; [|split].
  - intros a.
    destruct (seen w (Path.join dir "mimetype")) as [s|]; [|discriminate].
    destruct (open_error outPath) as [m|]; [discriminate|].
    destruct (stream_result (Some s) (Path.join dir "mimetype")) as [c|e];
      [|intros [= <-]; simpl; split; constructor].
    destruct (level_ok level || is_nil _);
      [|intros [= <-]; simpl; split; constructor].
    intros [= <-]. cbn [entries filter not_mimetype name String.eqb negb Ascii.eqb Bool.eqb].
    simpl. rewrite packed_not_mimetype. split.
    + apply packed_by_name; [apply sort_ascending|].
      intros f Hf. apply (walk_below dir t). now apply Hsorted.
    + apply Forall_forall. intros e He.
      apply in_flat_map in He as (f & Hf & He).
      apply packed_In in He as (Hname & Hstore & Hsrc & _).
      split.
      * unfold method_of. now rewrite Hstore.
      * exists f. repeat split; try assumption. now apply Hsorted.
  - intros Hnd.
    destruct (seen w (Path.join dir "mimetype")) as [s|]; [|discriminate].
    destruct (open_error outPath) as [m|]; [discriminate|].
    destruct (stream_result (Some s) (Path.join dir "mimetype")) as [c|e];
      [|discriminate].
    destruct (level_ok level || is_nil _); [|discriminate].
    intros _. eexists. split; [reflexivity|]. split; [reflexivity|].
    simpl. rewrite packed_not_mimetype.
    now apply (packed_all dir t w _ eq_refl Hnd).
  - intros c Hc Ho Hl. apply seen_content in Hc. rewrite Hc, Ho, Hl. reflexivity.
Qed.

(** C9.  The assembler is deterministic: for one state of the working tree,
    in whichever order [readdir] enumerates its directories, and one
    compression level, two runs of [createEpub] leave the same archive
    (same destination, level, entries in the same order with the same
    bytes) and end the same way. *)
Theorem createEpub_deterministic
        (dir outPath : string) (level : float) (t1 t2 : tree)
        (out : option archive) (log1 log2 : list line) :
  same_state t1 t2 ->
  distinct_paths dir t1 ->
  let run1 := createEpub dir outPath level (mkWorld (Some (mkVolume dir t1)) out log1) in
  let run2 := createEpub dir outPath level (mkWorld (Some (mkVolume dir t2)) out log2) in
  outfile (fst run1) = outfile (fst run2) /\ snd run1 = snd run2.
Proof.
  intros Hs Hd. cbv zeta.
  rewrite (createEpub_eq dir outPath level t1
             (mkWorld (Some (mkVolume dir t1)) out log1) eq_refl).
  rewrite (createEpub_eq dir outPath level t2
             (mkWorld (Some (mkVolume dir t2)) out log2) eq_refl).
  rewrite (seen_same_state dir t1 t2 out out log1 log2 _ Hs Hd).
  rewrite (sort_permuted (_walk dir t1) (_walk dir t2))
    by (now apply same_state_listing).
  rewrite (flat_map_ext (packed dir (mkWorld (Some (mkVolume dir t1)) out log1))
                        (packed dir (mkWorld (Some (mkVolume dir t2)) out log2))).
  2: { intros f. unfold packed.
       now rewrite (seen_same_state dir t1 t2 out out log1 log2 f Hs Hd). }
  destruct (seen _ (Path.join dir "mimetype")) as [s|]; [|now split].
  destruct (open_error outPath) as [m|]; [now split|].
  destruct (stream_result (Some s) (Path.join dir "mimetype")) as [c|e]; [|now split].
  destruct (level_ok level || is_nil _); now split.
Qed.

(** C4.  Per-file failure isolation.  [processFiles] always runs to its
    end, and every file of the tree ends with the bytes its own transformer,
    run alone on the initial state, leaves it: the failure of one file
    changes nothing for the others, which are all transformed.  A file whose
    transformer raises an error keeps its original bytes, and the error is
    caught and reported on the console with the relative path and the
    message. *)
Theorem per_file_failure_isolation
        (root : string) (opts : process_opts) (t : tree)
        (out : option archive) (log : list line) :
  let w := mkWorld (Some (mkVolume root t)) out log in
  NoDup (_walk root t) ->
  let done := processFiles root opts w in
  snd done = Ok tt
  /\ forall f, In f (_walk root t) ->
       let rel := Path.relative root f in
       let alone := dispatch opts f rel (toLowerCase (Path.extname f)) w in
       content (fst done) f = content (fst alone) f
       /\ forall message,
           snd alone = Err (Error_ message) ->
           content (fst done) f = content w f
           /\ In (Warn ["Failed to process"; rel; message]) (console (fst done)).
Proof.
  intros w Hnd done. unfold done.
  rewrite (processFiles_eq root opts t w eq_refl). split; [apply for_of_ok|].
  intros f Hf. cbv zeta.
  destruct (for_of_each root opts (_walk root t) Hnd w w (fun _ _ => eq_refl) f Hf)
    as [Hc Hlog].
  split; [exact Hc|].
  intros message Hm. split; [|now apply Hlog].
  rewrite Hc. now rewrite (dispatch_error_unchanged opts f _ w _ Hm).
Qed.

(** C5.  [optimizeImage] overwrites a file only with strictly fewer bytes:
    when the engine returns a buffer shorter than the input the file holds
    that buffer afterwards, and in every other case (not shorter, the engine
    throws, no plugin for the extension) the state is left as it was; so the
    file never grows. *)
Theorem raster_write_back_never_grows
        (filePath : string) (q : float) (w : world) (input : list byte) :
  content w filePath = Ok input ->
  let w' := fst (optimizeImage filePath q w) in
  exists after,
    content w' filePath = Ok after
    /\ (List.length after <= List.length input)%nat
    /\ match plugins_for (toLowerCase (Path.extname filePath)) q with
       | Some plugins =>
           match imagemin_buffer input plugins with
           | Returned out =>
               if (List.length out <? List.length input)%nat
               then after = out
               else after = input /\ w' = w
           | Thrown _ => after = input /\ w' = w
           end
       | None => after = input /\ w' = w
       end.
Proof.
  intros Hc w'. unfold w'. rewrite optimizeImage_edit, edit_eq, Hc.
  unfold image_verdict.
  destruct (plugins_for _ q) as [plugins|]; simpl; [|exists input; auto].
  destruct (imagemin_buffer input plugins) as [out|m]; simpl; [|exists input; auto].
  destruct (List.length out <? List.length input)%nat eqn:Hlt; simpl;
    [|exists input; auto].
  exists out. rewrite (content_overwrite filePath out w input Hc), String.eqb_refl.
  apply Nat.ltb_lt in Hlt. repeat split. lia.
Qed.

(** C7.  The action applied to a file is the one that the table of the
    File Classifier gives for its lower-cased extension and the image option:
    the [try] body of [processFiles] is the transformer of that action, and
    [processFiles] leaves every file of the tree with the bytes which that
    action, run alone on the initial state, leaves it, reporting the error it
    throws.  When the table says [Skip] (any extension outside the table, and
    [.jpg], [.jpeg], [.png] when image optimization is off) the file is only
    reported, and its bytes are the same after [processFiles] as before. *)
Theorem action_follows_extension_table
        (root : string) (opts : process_opts) (filePath : string) :
  let rel := Path.relative root filePath in
  let ext := toLowerCase (Path.extname filePath) in
  dispatch opts filePath rel ext
  = perform (File_Classifier (images opts) ext) opts filePath rel
  /\ (forall (t : tree) (out : option archive) (log : list line),
        let w := mkWorld (Some (mkVolume root t)) out log in
        let alone := perform (File_Classifier (images opts) ext) opts filePath rel w in
        let done := processFiles root opts w in
        NoDup (_walk root t) ->
        In filePath (_walk root t) ->
        content (fst done) filePath = content (fst alone) filePath
        /\ forall message,
            snd alone = Err (Error_ message) ->
            In (Warn ["Failed to process"; rel; message]) (console (fst done)))
  /\ (images opts = false ->
      In ext [".jpg"; ".jpeg"; ".png"] ->
      File_Classifier (images opts) ext = Skip)
  /\ (File_Classifier (images opts) ext = Skip ->
      forall w,
        dispatch opts filePath rel ext w = (log_line (Warn ["Skipping"; rel]) w, Ok tt)
        /\ content (fst (processFiles root opts w)) filePath = content w filePath).
Proof.
  intros rel ext. split; [apply dispatch_perform|]. split; [|split].
  - intros t out log w alone done Hnd Hin. unfold done, alone.
    rewrite (processFiles_eq root opts t w eq_refl).
    rewrite <- dispatch_perform.
    exact (for_of_each root opts (_walk root t) Hnd w w (fun _ _ => eq_refl)
                       filePath Hin).
  - intros -> [<-|[<-|[<-|[]]]]; reflexivity.
  - intros Hskip w. split.
    + unfold ext. now rewrite dispatch_skip.
    + destruct (processFiles_frame root opts w) as (_ & _ & _ & Hkeep).
      apply Hkeep. intros H. now apply H.
Qed.

(** C8.  For every quality [q], a PNG file is handed to the encoder with
    exactly one plugin, pngquant, whose quality range is
    [[max(0.1, (q - 30) / 100), q / 100]] in binary64 arithmetic. *)
Theorem png_quality_range
        (filePath : string) (q : float) (w : world) (input : list byte) :
  toLowerCase (Path.extname filePath) = ".png" ->
  content w filePath = Ok input ->
  let range := imageminPngquant (Math_max 0.1%float ((q - 30) / 100)%float)
                                (q / 100)%float in
  plugins_for ".png" q = Some [range]
  /\ optimizeImage filePath q w
     = (out <- await (imagemin_buffer input [range]) ;;
        if (List.length out <? List.length input)%nat
        then fs.writeFile filePath out
        else ret tt) w.
Proof.
  intros Hext Hc range. split; [reflexivity|].
  unfold optimizeImage. rewrite Hext. unfold bind at 1.
  rewrite readFile_eq, Hc. reflexivity.
Qed.

(** C10.  [minifyJsFile] writes only when the engine returns non-empty
    code.  If the engine throws or reports an error, that error is thrown
    and the state is untouched; if it reports no error and no code, or empty
    code, nothing is written and the state is untouched; otherwise the file
    holds the encoded code and no other file changes. *)
Theorem script_written_only_with_code
        (filePath : string) (w : world) (src : list byte) :
  content w filePath = Ok src ->
  let r := minifyJsFile filePath w in
  match terser (utf8_decode src) with
  | Thrown message => r = (w, Err (Error_ message))
  | Returned out =>
      match error out, code out with
      | Some e, _ => r = (w, Err (Error_ e))
      | None, None => r = (w, Ok tt)
      | None, Some min =>
          if String.eqb min "" then r = (w, Ok tt)
          else snd r = Ok tt
               /\ content (fst r) filePath = Ok (utf8_encode min)
               /\ forall p, p <> filePath -> content (fst r) p = content w p
      end
  end.
Proof.
  intros Hc r. unfold r. rewrite minifyJsFile_edit, edit_eq, Hc.
  unfold js_verdict.
  destruct (terser (utf8_decode src)) as [out|m]; [|reflexivity].
  destruct (error out); [reflexivity|].
  destruct (code out) as [min|]; [|reflexivity].
  destruct (String.eqb min ""); [reflexivity|]. simpl.
  split; [reflexivity|].
  split.
  - now rewrite (content_overwrite filePath _ w src Hc), String.eqb_refl.
  - intros p Hp. rewrite (content_overwrite filePath _ w src Hc).
    apply String.eqb_neq in Hp. now rewrite Hp.
Qed.

End Claims.

(** * The sample job, run *)

Lemma book_paths_distinct : distinct_paths Sample.tmp Sample.book.
Proof.
  unfold distinct_paths. vm_compute.
  repeat (constructor; [simpl; intuition discriminate|]). constructor.
Qed.

Lemma book_files_distinct : NoDup (_walk Sample.tmp Sample.book).
Proof.
  vm_compute.
  repeat (constructor; [simpl; intuition discriminate|]). constructor.
Qed.

(** C6.  On a fatal failure the temporary directory is not removed: for the
    archive without [mimetype] the job ends with status 1 and the working
    tree, processed, is still on disk; when extraction itself fails the
    directory made for it is still there. *)
Theorem temporary_directory_left_on_fatal_failure :
  snd (Sample.job "headless.epub" false) = 1%Z
  /\ disk (fst (Sample.job "headless.epub" false))
     = Some (mkVolume Sample.tmp
                      [("content.opf", File (Sample.bytes "<package> </package>"))])
  /\ snd (Sample.job "corrupt.epub" false) = 1%Z
  /\ disk (fst (Sample.job "corrupt.epub" false)) = Some (mkVolume Sample.tmp [])
  /\ snd (Sample.job "book.epub" false) = 0%Z
  /\ disk (fst (Sample.job "book.epub" false)) = None.
Proof. vm_compute. repeat split. Qed.

(** ** The theorems at the sample job *)

Lemma mimetype_entry_first_stored_untransformed_witness :
  failure (@unzip Sample.engines "book.epub") = None
  /\ lookup (mkVolume Sample.tmp Sample.book) (Path.join Sample.tmp "mimetype")
     = Some (File (Sample.bytes "application/epub+zip"))
  /\ @open_error Sample.engines "out.epub" = None
  /\ @level_ok Sample.engines 9%float = true
  /\ snd (Sample.job "book.epub" true) = 0%Z
  /\ exists a first rest,
      outfile (fst (Sample.job "book.epub" true)) = Some a
      /\ finalized a = true
      /\ entries a = first :: rest
      /\ name first = "mimetype"
      /\ method_of a first = STORED
      /\ source first = Sample.bytes "application/epub+zip".
Proof.
  do 4 (split; [reflexivity|]).
  destruct (@mimetype_entry_first_stored_untransformed
              Sample.engines (Sample.args "book.epub" true) "/tmp" "a1b2c3d4e5f6"
              world0 (Sample.bytes "application/epub+zip"))
    as (_ & Hopen & _);
    [simpl; discriminate|simpl; discriminate|reflexivity|reflexivity|].
  destruct (Hopen eq_refl)
    as (a & first & rest & Ha & _ & _ & He & Hn & Hm & Hs & Hl).
  destruct (Hl eq_refl) as [Hdone Hfin].
  split; [exact Hdone|]. exists a, first, rest. repeat split; assumption.
Defined.

Lemma other_entries_sorted_by_relative_path_witness :
  distinct_paths Sample.tmp Sample.book
  /\ content Sample.book_world (Path.join Sample.tmp "mimetype")
     = Ok (Sample.bytes "application/epub+zip")
  /\ @open_error Sample.engines "out.epub" = None
  /\ @level_ok Sample.engines 9%float = true
  /\ snd (@createEpub Sample.engines Sample.tmp "out.epub" 9%float Sample.book_world)
     = Ok tt
  /\ outfile (fst (@createEpub Sample.engines Sample.tmp "out.epub" 9%float
                               Sample.book_world))
     = Some Sample.book_archive
  /\ map name (filter not_mimetype (entries Sample.book_archive))
     = ["META-INF/container.xml"; "OEBPS/app.js"; "OEBPS/broken.js"; "OEBPS/cover.JPG";
        "OEBPS/font.otf"; "OEBPS/style.css"; "content.opf"]
  /\ by_name (filter not_mimetype (entries Sample.book_archive))
  /\ Forall (fun e =>
               method_of Sample.book_archive e = DEFLATED 9%float
               /\ exists file,
                   In file (_walk Sample.tmp Sample.book)
                   /\ name e = Path.relative Sample.tmp file
                   /\ content Sample.book_world file = Ok (source e))
            (filter not_mimetype (entries Sample.book_archive)).
Proof.
  split; [exact book_paths_distinct|]. do 3 (split; [reflexivity|]).
  destruct (@other_entries_sorted_by_relative_path
              Sample.engines Sample.tmp "out.epub" 9%float Sample.book [])
    as (Hsound & Hall & Hreturns).
  assert (Hok := Hreturns (Sample.bytes "application/epub+zip") eq_refl eq_refl eq_refl).
  destruct (Hall book_paths_distinct Hok) as (a & Ha & _ & Hothers).
  assert (Hb : a = Sample.book_archive).
  { assert (H : Some a = Some Sample.book_archive)
      by (rewrite <- Ha; vm_compute; reflexivity).
    now injection H. }
  subst a.
  split; [exact Hok|]. split; [exact Ha|].
  split; [rewrite Hothers; vm_compute; reflexivity|].
  exact (Hsound Sample.book_archive Ha).
Defined.


Lemma per_file_failure_isolation_witness :
  NoDup (_walk Sample.tmp Sample.book)
  /\ let opts := mkOpts true 80%float in
     let done := @processFiles Sample.engines Sample.tmp opts Sample.book_world in
     snd done = Ok tt
     /\ content (fst done) (Path.join Sample.tmp "OEBPS/broken.js")
        = Ok (Sample.bytes ") oops")
     /\ In (Warn ["Failed to process"; "OEBPS/broken.js"; "Unexpected token: punc ())"])
           (console (fst done))
     /\ content (fst done) (Path.join Sample.tmp "OEBPS/app.js") = Ok (Sample.bytes "f()")
     /\ content (fst done) (Path.join Sample.tmp "OEBPS/style.css")
        = Ok (Sample.bytes "body{color:red}").
Proof.
  split; [exact book_files_distinct|]. cbv zeta.
  destruct (@per_file_failure_isolation
              Sample.engines Sample.tmp (mkOpts true 80%float) Sample.book None []
              book_files_distinct) as [Hok Heach].
  split; [exact Hok|].
  assert (Hin : forall rel, In rel ["OEBPS/broken.js"; "OEBPS/app.js"; "OEBPS/style.css"] ->
                            In (Path.join Sample.tmp rel) (_walk Sample.tmp Sample.book)).
  { intros rel [<-|[<-|[<-|[]]]]; vm_compute; tauto. }
  destruct (Heach _ (Hin "OEBPS/broken.js" (or_introl eq_refl))) as [_ Hbroken].
  destruct (Hbroken "Unexpected token: punc ())" eq_refl) as [Hkept Hlog].
  destruct (Heach _ (Hin "OEBPS/app.js" (or_intror (or_introl eq_refl)))) as [Happ _].
  destruct (Heach _ (Hin "OEBPS/style.css" (or_intror (or_intror (or_introl eq_refl)))))
    as [Hcss _].
  split; [exact (eq_trans Hkept eq_refl)|].
  split; [exact Hlog|].
  split; [refine (eq_trans Happ _)|refine (eq_trans Hcss _)]; vm_compute; reflexivity.
Defined.

Lemma raster_write_back_never_grows_witness :
  content Sample.book_world (Path.join Sample.tmp "OEBPS/cover.JPG")
  = Ok (Sample.bytes "0123456789")
  /\ exists after,
      content (fst (@optimizeImage Sample.engines
                      (Path.join Sample.tmp "OEBPS/cover.JPG") 80%float Sample.book_world))
              (Path.join Sample.tmp "OEBPS/cover.JPG") = Ok after
      /\ (List.length after <= 10)%nat.
Proof.
  split; [reflexivity|].
  destruct (@raster_write_back_never_grows
              Sample.engines (Path.join Sample.tmp "OEBPS/cover.JPG") 80%float
              Sample.book_world (Sample.bytes "0123456789") eq_refl)
    as (after & Hc & Hlen & _).
  exists after. split; [exact Hc|exact Hlen].
Defined.

Lemma action_follows_extension_table_witness :
  NoDup (_walk Sample.tmp Sample.book)
  /\ In (Path.join Sample.tmp "OEBPS/cover.JPG") (_walk Sample.tmp Sample.book)
  /\ File_Classifier true (toLowerCase (Path.extname (Path.join Sample.tmp "OEBPS/cover.JPG")))
     = OptimizeRaster
  /\ content (fst (@processFiles Sample.engines Sample.tmp (mkOpts true 80%float)
                                 Sample.book_world))
             (Path.join Sample.tmp "OEBPS/cover.JPG")
     = Ok (Sample.bytes "01234")
  /\ File_Classifier false (toLowerCase (Path.extname (Path.join Sample.tmp "OEBPS/cover.JPG")))
     = Skip
  /\ content (fst (@processFiles Sample.engines Sample.tmp (mkOpts false 80%float)
                                 Sample.book_world))
             (Path.join Sample.tmp "OEBPS/cover.JPG")
     = content Sample.book_world (Path.join Sample.tmp "OEBPS/cover.JPG").
Proof.
  assert (Hin : In (Path.join Sample.tmp "OEBPS/cover.JPG") (_walk Sample.tmp Sample.book))
    by (vm_compute; tauto).
  split; [exact book_files_distinct|]. split; [exact Hin|]. split; [reflexivity|].
  split.
  - destruct (@action_follows_extension_table
                Sample.engines Sample.tmp (mkOpts true 80%float)
                (Path.join Sample.tmp "OEBPS/cover.JPG")) as (_ & Hdone & _).
    destruct (Hdone Sample.book None [] book_files_distinct Hin) as [Hc _].
    refine (eq_trans Hc _). vm_compute. reflexivity.
  - split; [reflexivity|].
    destruct (@action_follows_extension_table
                Sample.engines Sample.tmp (mkOpts false 80%float)
                (Path.join Sample.tmp "OEBPS/cover.JPG")) as (_ & _ & _ & Hskip).
    apply (Hskip eq_refl Sample.book_world).
Defined.

Lemma png_quality_range_witness :
  let w := mkWorld (Some (mkVolume "/d" [("pic.PNG", File (Sample.bytes "abc"))])) None [] in
  toLowerCase (Path.extname "/d/pic.PNG") = ".png"
  /\ content w "/d/pic.PNG" = Ok (Sample.bytes "abc")
  /\ plugins_for ".png" 80%float = Some [imageminPngquant 0.5%float 0.8%float]
  /\ plugins_for ".png" 35%float = Some [imageminPngquant 0.1%float 0.35%float].
Proof.
  cbv zeta. split; [reflexivity|]. split; [reflexivity|].
  split.
  - destruct (@png_quality_range
                Sample.engines "/d/pic.PNG" 80%float
                (mkWorld (Some (mkVolume "/d" [("pic.PNG", File (Sample.bytes "abc"))])) None [])
                (Sample.bytes "abc") eq_refl eq_refl) as [H _].
    rewrite H. vm_compute. reflexivity.
  - destruct (@png_quality_range
                Sample.engines "/d/pic.PNG" 35%float
                (mkWorld (Some (mkVolume "/d" [("pic.PNG", File (Sample.bytes "abc"))])) None [])
                (Sample.bytes "abc") eq_refl eq_refl) as [H _].
    rewrite H. vm_compute. reflexivity.
Defined.

Lemma createEpub_deterministic_witness :
  same_state Sample.book Sample.book_reordered
  /\ distinct_paths Sample.tmp Sample.book
  /\ Sample.book <> Sample.book_reordered
  /\ outfile (fst (@createEpub Sample.engines Sample.tmp "out.epub" 9%float
                     (mkWorld (Some (mkVolume Sample.tmp Sample.book)) None [])))
     = outfile (fst (@createEpub Sample.engines Sample.tmp "out.epub" 9%float
                       (mkWorld (Some (mkVolume Sample.tmp Sample.book_reordered)) None []))).
Proof.
  assert (Hs : same_state Sample.book Sample.book_reordered) by apply same_swap.
  split; [exact Hs|]. split; [exact book_paths_distinct|].
  split; [discriminate|].
  apply (@createEpub_deterministic Sample.engines Sample.tmp "out.epub" 9%float
           Sample.book Sample.book_reordered None [] [] Hs book_paths_distinct).
Defined.

Lemma script_written_only_with_code_witness :
  content Sample.book_world (Path.join Sample.tmp "OEBPS/app.js") = Ok (Sample.bytes " f() ")
  /\ content (fst (@minifyJsFile Sample.engines (Path.join Sample.tmp "OEBPS/app.js")
                                 Sample.book_world))
             (Path.join Sample.tmp "OEBPS/app.js")
     = Ok (Sample.bytes "f()").
Proof.
  split; [reflexivity|].
  pose proof (@script_written_only_with_code
                Sample.engines (Path.join Sample.tmp "OEBPS/app.js")
                Sample.book_world (Sample.bytes " f() ") eq_refl) as H.
  vm_compute in H. vm_compute. destruct H as (_ & H & _). exact H.
Defined.

(** * Further properties of the code *)

(** ** [minifySvg]: the text it writes *)

Lemma collapse_nonspace (b : bool) (c : ascii) (s : string) :
  Svg.is_space c = false -> Svg.collapse b (String c s) = String c (Svg.collapse false s).
Proof. intros H. simpl. now rewrite H. Qed.

Lemma tight_unfold (c d : ascii) (s : string) :
  tight (String c (String d s))
  = negb (Svg.is_space c && Svg.is_space d) && tight (String d s).
Proof. reflexivity. Qed.

Lemma tight_cons (c : ascii) (s : string) :
  tight s = true ->
  (Svg.is_space c && starts_with_space s = false) ->
  tight (String c s) = true.
Proof.
  intros Ht Hc. destruct s as [|d s]; [reflexivity|].
  simpl in Hc. now rewrite tight_unfold, Hc, Ht.
Qed.

Lemma collapse_tidy (s : string) :
  tight (Svg.collapse false s) = true
  /\ tight (Svg.collapse true s) = true
  /\ starts_with_space (Svg.collapse true s) = false.
Proof.
  induction s as [|c s (IHf & IHt & IHs)]; [now repeat split|].
  destruct (Svg.is_space c) eqn:Hc.
  - split; [|split]; cbn [Svg.collapse]; rewrite Hc; try assumption.
    destruct s as [|d s]; [reflexivity|].
    destruct (Svg.is_space d) eqn:Hd.
    + apply tight_cons; [assumption|]. rewrite IHs. apply andb_false_r.
    + apply tight_cons; [assumption|].
      rewrite (collapse_nonspace false d s Hd). simpl. rewrite Hd. apply andb_false_r.
  - rewrite !(collapse_nonspace _ c s Hc).
    assert (Ht : tight (String c (Svg.collapse false s)) = true)
      by (apply tight_cons; [assumption|now rewrite Hc]).
    split; [exact Ht|]. split; [exact Ht|exact Hc].
Qed.

Lemma tight_tail (c : ascii) (s : string) : tight (String c s) = true -> tight s = true.
Proof.
  destruct s as [|d s]; [reflexivity|]. rewrite tight_unfold.
  intros H. now apply andb_prop in H.
Qed.

Lemma tight_trimStart (s : string) : tight s = true -> tight (Svg.trimStart s) = true.
Proof.
  induction s as [|c s IH]; [reflexivity|]. intros H. simpl.
  destruct (Svg.is_space c); [|exact H]. apply IH. now apply tight_tail in H.
Qed.

Lemma trimEnd_head (s : string) :
  starts_with_space (Svg.trimEnd s) = true -> starts_with_space s = true.
Proof.
  destruct s as [|c s]; [easy|]. simpl.
  destruct (Svg.is_space c && (Svg.trimEnd s =? ""))%bool; [discriminate|easy].
Qed.

Lemma tight_trimEnd (s : string) : tight s = true -> tight (Svg.trimEnd s) = true.
Proof.
  induction s as [|c s IH]; [reflexivity|]. intros H. simpl.
  destruct (Svg.is_space c && (Svg.trimEnd s =? ""))%bool; [reflexivity|].
  apply tight_cons; [apply IH; now apply tight_tail in H|].
  destruct (Svg.is_space c) eqn:Hc; [|reflexivity]. simpl.
  destruct (starts_with_space (Svg.trimEnd s)) eqn:Hs; [|reflexivity].
  apply trimEnd_head in Hs. destruct s as [|d s]; [discriminate|].
  simpl in Hs. rewrite tight_unfold, Hc, Hs in H. discriminate.
Qed.

Lemma trimStart_head (s : string) : starts_with_space (Svg.trimStart s) = false.
Proof.
  induction s as [|c s IH]; [reflexivity|]. simpl.
  destruct (Svg.is_space c) eqn:Hc; [exact IH|]. simpl. exact Hc.
Qed.

Lemma trimEnd_last (s : string) : ends_with_space (Svg.trimEnd s) = false.
Proof.
  induction s as [|c s IH]; [reflexivity|]. simpl.
  destruct (Svg.is_space c) eqn:Hc; simpl.
  - destruct (String.eqb_spec (Svg.trimEnd s) "") as [He|Hne]; [reflexivity|].
    cbn [ends_with_space]. destruct (Svg.trimEnd s); [congruence|exact IH].
  - cbn [ends_with_space]. destruct (Svg.trimEnd s); [exact Hc|exact IH].
Qed.

(** X1.  Whatever the text, what [minifySvg] writes has no two white-space
    characters in a row and neither starts nor ends with white space. *)
Theorem svg_minify_tidy (src : string) :
  tight (Svg.minify src) = true
  /\ starts_with_space (Svg.minify src) = false
  /\ ends_with_space (Svg.minify src) = false.
Proof.
  unfold Svg.minify, Svg.trim. split; [|split].
  - apply tight_trimEnd, tight_trimStart, collapse_tidy.
  - destruct (starts_with_space (Svg.trimEnd _)) eqn:H; [|reflexivity].
    apply trimEnd_head in H. now rewrite trimStart_head in H.
  - apply trimEnd_last.
Qed.

Lemma remove_comments_length (s : string) :
  forall skip, String.length (Svg.remove_comments skip s) <= String.length s.
Proof.
  induction s as [|c s IH]; intros skip; [reflexivity|].
  cbn [Svg.remove_comments].
  destruct skip as [|k].
  - destruct (prefix "<!--" (String c s)).
    + destruct (Svg.close_at _) as [n|].
      * specialize (IH (3 + n)). simpl in *. lia.
      * specialize (IH 0). simpl in *. lia.
    + specialize (IH 0). simpl in *. lia.
  - specialize (IH k). simpl in *. lia.
Qed.

Lemma collapse_length (s : string) :
  forall b, String.length (Svg.collapse b s) <= String.length s.
Proof.
  induction s as [|c s IH]; intros b; [reflexivity|].
  cbn [Svg.collapse].
  pose proof (IH true). pose proof (IH false).
  destruct (Svg.is_space c); [|simpl; lia].
  destruct b; [simpl; lia|].
  destruct s as [|d s]; [reflexivity|].
  destruct (Svg.is_space d); simpl in *; lia.
Qed.

Lemma trimStart_length (s : string) : String.length (Svg.trimStart s) <= String.length s.
Proof.
  induction s as [|c s IH]; [reflexivity|]. simpl.
  destruct (Svg.is_space c); simpl; lia.
Qed.

Lemma trimEnd_length (s : string) : String.length (Svg.trimEnd s) <= String.length s.
Proof.
  induction s as [|c s IH]; [reflexivity|]. simpl.
  destruct (Svg.is_space c && _)%bool; simpl; lia.
Qed.

(** X2.  [minifySvg] never makes the text longer. *)
Theorem svg_minify_never_longer (src : string) :
  String.length (Svg.minify src) <= String.length src.
Proof.
  unfold Svg.minify, Svg.trim.
  pose proof (trimEnd_length (Svg.trimStart (Svg.collapse false (Svg.remove_comments 0 src)))).
  pose proof (trimStart_length (Svg.collapse false (Svg.remove_comments 0 src))).
  pose proof (collapse_length (Svg.remove_comments 0 src) false).
  pose proof (remove_comments_length src 0).
  lia.
Qed.

Lemma remove_comments_none (s : string) :
  has_opener s = false -> Svg.remove_comments 0 s = s.
Proof.
  induction s as [|c s IH]; [reflexivity|].
  cbn [has_opener Svg.remove_comments]. intros H.
  apply orb_false_elim in H as [Hp Hs]. rewrite Hp. f_equal. now apply IH.
Qed.

Lemma collapse_tight (s : string) : tight s = true -> Svg.collapse false s = s.
Proof.
  induction s as [|c s IH]; [reflexivity|]. intros H.
  pose proof (tight_tail c s H) as Ht. cbn [Svg.collapse].
  destruct (Svg.is_space c) eqn:Hc; [|now rewrite IH].
  destruct s as [|d s]; [reflexivity|].
  rewrite tight_unfold, Hc in H.
  destruct (Svg.is_space d); [discriminate|]. now rewrite IH.
Qed.

Lemma trimStart_none (s : string) : starts_with_space s = false -> Svg.trimStart s = s.
Proof. destruct s as [|c s]; [reflexivity|]. simpl. now intros ->. Qed.

Lemma trimEnd_none (s : string) : ends_with_space s = false -> Svg.trimEnd s = s.
Proof.
  induction s as [|c s IH]; [reflexivity|]. cbn [ends_with_space Svg.trimEnd].
  destruct s as [|d s].
  - intros ->. reflexivity.
  - intros H. rewrite (IH H). simpl. now rewrite andb_false_r.
Qed.

(** X3.  Text that is already minified is written back as it is: a text
    without the opening of a comment, without two white-space characters in
    a row and without white space at either end is a fixed point of
    [minifySvg]. *)
Theorem svg_minify_fixed_point (src : string) :
  has_opener src = false ->
  tight src = true ->
  starts_with_space src = false ->
  ends_with_space src = false ->
  Svg.minify src = src.
Proof.
  intros Ho Ht Hs He. unfold Svg.minify, Svg.trim.
  now rewrite remove_comments_none, collapse_tight, trimStart_none, trimEnd_none.
Qed.

Lemma svg_minify_fixed_point_witness :
  has_opener "<svg> <g/> </svg>" = false
  /\ tight "<svg> <g/> </svg>" = true
  /\ starts_with_space "<svg> <g/> </svg>" = false
  /\ ends_with_space "<svg> <g/> </svg>" = false
  /\ Svg.minify "<svg> <g/> </svg>" = "<svg> <g/> </svg>".
Proof.
  do 4 (split; [reflexivity|]).
  apply svg_minify_fixed_point; reflexivity.
Defined.

(** ** [walk]: what it lists *)

Lemma nodes_visit (n : node) :
  forall full f c, In (f, File c) (nodes_at full n) -> In f (visit full n).
Proof.
  induction n as [b| |es IH] using node_rect'; intros full f c Hin; simpl in *.
  - destruct Hin as [[= <- _]|[]]. now left.
  - destruct Hin as [[= _ ?]|[]].
  - destruct Hin as [[= _ ?]|Hin].
    apply in_flat_map in Hin as (e & He & Hf).
    rewrite Forall_forall in IH.
    apply in_flat_map. exists e. split; [exact He|]. now apply (IH e He) with c.
Qed.

(** X4.  [walk] misses no regular file: every regular file of the tree, at
    any depth, is listed under its full path, and every listed path is the
    path of a regular file of the tree.  In a tree whose paths are distinct
    a listed path names neither a directory nor one of the special files
    that [walk] passes over.  (Symbolic links, which [walk] lists too, are
    not part of the trees of the model.) *)
Theorem walk_lists_every_regular_file (p : string) (es : tree) (f : string) :
  (forall c, In (f, File c) (nodes_in p es) -> In f (_walk p es))
  /\ (In f (_walk p es) ->
      (exists c, In (f, File c) (nodes_in p es))
      /\ (distinct_paths p es ->
          forall n, In (f, n) (nodes_in p es) ->
                    fs.isDirectory n = false /\ n <> Other)).
Proof.
  split.
  - intros c Hin. unfold _walk, nodes_in in *.
    apply in_flat_map in Hin as (e & He & Hf).
    apply in_flat_map. exists e. split; [exact He|]. now apply nodes_visit with c.
  - intros Hin. destruct (walk_nodes _ _ _ Hin) as [c Hc].
    split; [now exists c|].
    intros Hnd n Hn.
    assert (H : (f, n) = (f, File c))
      by (apply (NoDup_keys_eq (nodes_in p es)); auto).
    injection H as ->. split; [reflexivity|discriminate].
Qed.

(** ** [processFiles]: what it leaves alone *)

Lemma skeleton_put (target : string) (data : list byte) (n : node) :
  forall full, skeleton (put full target data n) = skeleton n.
Proof.
  induction n as [c| |es IH] using node_rect'; intros full; simpl.
  - now destruct (String.eqb full target).
  - reflexivity.
  - f_equal. rewrite map_map. simpl.
    induction IH as [|e es He _ IHes]; simpl; [reflexivity|].
    now rewrite He, IHes.
Qed.

Lemma skeleton_put_in (target : string) (data : list byte) (p : string) (t : tree) :
  skeleton_in (put_in p target data t) = skeleton_in t.
Proof.
  unfold skeleton_in, put_in. rewrite map_map. simpl.
  induction t as [|e t IH]; simpl; [reflexivity|].
  now rewrite skeleton_put, IH.
Qed.

Lemma visit_skeleton (n : node) : forall full, visit full (skeleton n) = visit full n.
Proof.
  induction n as [c| |es IH] using node_rect'; intros full; simpl; try reflexivity.
  induction IH as [|e es He _ IHes]; simpl; [reflexivity|].
  now rewrite He, IHes.
Qed.

Lemma walk_skeleton (p : string) (t : tree) : _walk p (skeleton_in t) = _walk p t.
Proof.
  unfold _walk, skeleton_in. induction t as [|e t IH]; simpl; [reflexivity|].
  now rewrite visit_skeleton, IH.
Qed.

Lemma nodes_at_skeleton (n : node) :
  forall full,
    nodes_at full (skeleton n)
    = map (fun qn => (fst qn, skeleton (snd qn))) (nodes_at full n).
Proof.
  induction n as [c| |es IH] using node_rect'; intros full; simpl; try reflexivity.
  f_equal.
  induction IH as [|e es He _ IHes]; simpl; [reflexivity|].
  now rewrite map_app, He, IHes.
Qed.

Lemma nodes_in_skeleton (p : string) (t : tree) :
  nodes_in p (skeleton_in t)
  = map (fun qn => (fst qn, skeleton (snd qn))) (nodes_in p t).
Proof.
  unfold nodes_in, skeleton_in. induction t as [|e t IH]; simpl; [reflexivity|].
  now rewrite map_app, nodes_at_skeleton, IH.
Qed.

Lemma find_skeleton (p : string) (l : list (string * node)) :
  find (fun e => String.eqb (fst e) p) (map (fun qn => (fst qn, skeleton (snd qn))) l)
  = option_map (fun qn => (fst qn, skeleton (snd qn)))
               (find (fun e => String.eqb (fst e) p) l).
Proof.
  induction l as [|x l IH]; simpl; [reflexivity|].
  now destruct (String.eqb (fst x) p).
Qed.

Lemma lookup_skeleton (m : string) (t : tree) (p : string) :
  lookup (mkVolume m (skeleton_in t)) p = option_map skeleton (lookup (mkVolume m t) p).
Proof.
  unfold lookup. simpl. destruct (String.eqb p m); [reflexivity|].
  rewrite nodes_in_skeleton, find_skeleton.
  now destruct (find _ (nodes_in m t)).
Qed.

(** Two states with trees of one shape show the same at a path where they
    read the same. *)
Lemma shape_seen (dir : string) (t t' : tree) (w w' : world) (p : string) :
  disk w = Some (mkVolume dir t) ->
  disk w' = Some (mkVolume dir t') ->
  skeleton_in t' = skeleton_in t ->
  content w' p = content w p ->
  seen w' p = seen w p.
Proof.
  intros Hd Hd' Hsk Hc.
  assert (H : option_map skeleton (fs.find_node w' p)
              = option_map skeleton (fs.find_node w p)).
  { unfold fs.find_node. rewrite Hd, Hd', <- !lookup_skeleton. now rewrite Hsk. }
  rewrite !content_find in Hc. unfold seen.
  destruct (fs.find_node w p) as [[]|], (fs.find_node w' p) as [[]|];
    simpl in *; try discriminate; try reflexivity; congruence.
Qed.

Lemma disk_overwrite (g : string) (d : list byte) (w : world) :
  disk (overwrite g d w) = disk w
  \/ exists m t, disk w = Some (mkVolume m t)
                 /\ disk (overwrite g d w) = Some (mkVolume m (put_in m g d t)).
Proof.
  unfold overwrite, fs.writeFile.
  destruct (disk w) as [[m t]|] eqn:E, (fs.find_node w g) as [[]|]; simpl; auto.
  right. now exists m, t.
Qed.

Section Untouched.

Context {engines : Engines}.

Lemma dispatch_stable (P : world -> Prop) (opts : process_opts) (f rel : string) (w : world) :
  stable P -> P w -> P (fst (dispatch opts f rel (toLowerCase (Path.extname f)) w)).
Proof.
  intros [Hw Hl] HP. destruct (action_of_dec opts f) as [Hs|Hs].
  - rewrite dispatch_skip by assumption. apply Hl, HP.
  - destruct (dispatch_edit opts f rel Hs) as [decide ->].
    rewrite edit_eq. destruct (content w f) as [c|e]; [|exact HP].
    destruct (decide c); try exact HP. apply Hw, HP.
Qed.

Lemma process_entry_stable (P : world -> Prop) (root : string) (opts : process_opts)
      (f : string) (w : world) :
  stable P -> P w -> P (fst (process_entry root opts f w)).
Proof.
  intros HS HP. rewrite process_entry_eq.
  pose proof (dispatch_stable P opts f (Path.relative root f) w HS HP) as H.
  destruct (snd (dispatch _ _ _ _ w)) as [[]|[m|c|m']]; simpl; try exact H.
  now apply HS.
Qed.

Lemma for_of_stable (P : world -> Prop) (root : string) (opts : process_opts)
      (l : list string) :
  stable P -> forall w, P w -> P (fst (for_of l (process_entry root opts) w)).
Proof.
  intros HS. induction l as [|g l IH]; intros w HP; [exact HP|].
  rewrite for_of_step. apply IH. now apply process_entry_stable.
Qed.

Lemma processFiles_stable (P : world -> Prop) (root : string) (opts : process_opts)
      (w : world) :
  stable P -> P w -> P (fst (processFiles root opts w)).
Proof.
  intros HS HP. unfold processFiles, bind.
  pose proof (walk_fst root w) as Hw.
  destruct (walk root w) as [w' [l|e]]; simpl in Hw; subst w'; [|exact HP].
  now apply for_of_stable.
Qed.

Lemma processFiles_shape (root : string) (opts : process_opts) (t : tree) (w : world) :
  disk w = Some (mkVolume root t) ->
  outfile (fst (processFiles root opts w)) = outfile w
  /\ exists t', disk (fst (processFiles root opts w)) = Some (mkVolume root t')
                /\ skeleton_in t' = skeleton_in t.
Proof.
  intros Hd.
  set (P := fun w' : world =>
              outfile w' = outfile w
              /\ exists t', disk w' = Some (mkVolume root t')
                            /\ skeleton_in t' = skeleton_in t).
  apply (processFiles_stable P); [|split; [reflexivity|now exists t]].
  split.
  - intros g d w1 [Ho (t' & Hd1 & Hsk)]. split; [now rewrite outfile_overwrite|].
    destruct (disk_overwrite g d w1) as [->|(m & t0 & Hw & ->)]; [now exists t'|].
    rewrite Hd1 in Hw. injection Hw as <- <-.
    exists (put_in root g d t'). split; [reflexivity|].
    now rewrite skeleton_put_in.
  - intros l w1 [Ho H]. split; assumption.
Qed.

(** X5.  [processFiles] changes nothing but the bytes of files and the
    console: whatever the engines do, it returns normally, does not touch
    the output path, and leaves a tree with the same directories, the same
    files under the same names and the same special files, which [walk]
    lists as before. *)
Theorem processFiles_keeps_the_shape
        (root : string) (opts : process_opts) (t : tree)
        (out : option archive) (log : list line) :
  let done := processFiles root opts (mkWorld (Some (mkVolume root t)) out log) in
  snd done = Ok tt
  /\ outfile (fst done) = out
  /\ exists t', disk (fst done) = Some (mkVolume root t')
                /\ skeleton_in t' = skeleton_in t
                /\ _walk root t' = _walk root t.
Proof.
  intros done. split; [now apply processFiles_ok with t|].
  destruct (processFiles_shape root opts t
              (mkWorld (Some (mkVolume root t)) out log) eq_refl)
    as [Ho (t' & Hd & Hsk)].
  split; [exact Ho|].
  exists t'. repeat split; try assumption.
  now rewrite <- (walk_skeleton root t'), Hsk, walk_skeleton.
Qed.

Lemma process_entry_console_eq (root : string) (opts : process_opts) (w : world) (f : string) :
  console (fst (process_entry root opts f w)) = console w ++ report root opts w f.
Proof.
  rewrite process_entry_eq. unfold report.
  destruct (action_of_dec opts f) as [Hs|Hs].
  - rewrite Hs. rewrite dispatch_skip by assumption. reflexivity.
  - assert (Hr : forall l : list line,
               match action_of opts f with Skip => [Warn ["Skipping"; Path.relative root f]]
                                      | _ => l end = l)
      by (intros l; destruct (action_of opts f); congruence).
    rewrite Hr.
    destruct (dispatch_edit opts f (Path.relative root f) Hs) as [decide ->].
    rewrite edit_eq. destruct (content w f) as [c|e] eqn:Hc.
    + destruct (decide c); simpl; rewrite ?console_overwrite, ?app_nil_r; reflexivity.
    + apply content_error in Hc as Hm. destruct Hm as [m ->]. reflexivity.
Qed.

Lemma report_local (root : string) (opts : process_opts) (w1 w2 : world) (f : string) :
  content w1 f = content w2 f -> report root opts w1 f = report root opts w2 f.
Proof.
  intros H. unfold report.
  destruct (dispatch_local opts f (Path.relative root f) w1 w2 H) as [_ Hr].
  now rewrite Hr.
Qed.

Lemma for_of_report (root : string) (opts : process_opts) (l : list string) :
  NoDup l ->
  forall w0 w,
    (forall f, In f l -> content w f = content w0 f) ->
    console (fst (for_of l (process_entry root opts) w))
    = console w ++ flat_map (report root opts w0) l.
Proof.
  induction 1 as [|g l Hg Hnd IH]; intros w0 w Hsame.
  - simpl. now rewrite app_nil_r.
  - rewrite for_of_step. rewrite (IH w0).
    + rewrite process_entry_console_eq. simpl. rewrite <- app_assoc. do 2 f_equal.
      apply report_local. apply Hsame. now left.
    + intros f Hf. rewrite <- Hsame by now right.
      apply (process_entry_frame root opts g w).
      intros [-> _]. contradiction.
Qed.

(** X6.  The console after [processFiles] is the console before followed, in
    the order of [walk], by exactly one warning for each file that is
    skipped and one for each file whose transformer throws (with its
    relative path and the message), and nothing for a file that is
    transformed. *)
Theorem processFiles_reports_each_skip_and_failure
        (root : string) (opts : process_opts) (t : tree)
        (out : option archive) (log : list line) :
  let w := mkWorld (Some (mkVolume root t)) out log in
  NoDup (_walk root t) ->
  console (fst (processFiles root opts w))
  = log ++ flat_map (report root opts w) (_walk root t).
Proof.
  intros w Hnd. rewrite (processFiles_eq root opts t w eq_refl).
  now rewrite (for_of_report root opts (_walk root t) Hnd w w).
Qed.

(** [processFiles] leaves what the assembler sees at a path it does not
    rewrite. *)
Lemma processed_seen_mimetype (args : argv) (tmpdir hex : string) (w0 : world) :
  let tmp := Path.join tmpdir ("epub-compress-" ++ hex) in
  seen (processed args tmpdir hex w0) (Path.join tmp "mimetype")
  = option_map view (lookup (mkVolume tmp (written (unzip (nth 0 (positional args) ""))))
                            (Path.join tmp "mimetype")).
Proof.
  intros tmp.
  destruct (processFiles_shape tmp (mkOpts (argv_images args) (argv_quality args))
              (written (unzip (nth 0 (positional args) "")))
              (extracted args tmpdir hex w0) eq_refl) as [_ (t' & Hd & Hsk)].
  change (seen (processed args tmpdir hex w0) (Path.join tmp "mimetype")
          = seen (extracted args tmpdir hex w0) (Path.join tmp "mimetype")).
  apply (shape_seen tmp (written (unzip (nth 0 (positional args) ""))) t');
    [reflexivity|exact Hd|exact Hsk|].
  destruct (processed_frame args tmpdir hex w0) as (_ & _ & _ & Hkeep).
  apply Hkeep. intros H. apply H. apply action_of_mimetype.
Qed.

End Untouched.

(** ** [createEpub]: what the archive holds *)

Lemma relative_not_mimetype (dir : string) (t : tree) (f : string) :
  In f (_walk dir t) -> f <> Path.join dir "mimetype" ->
  String.eqb (Path.relative dir f) "mimetype" = false.
Proof.
  intros Hin Hne. destruct (walk_below dir t f Hin) as [rel ->].
  rewrite relative_join. apply String.eqb_neq. intros ->. now apply Hne.
Qed.

Lemma packed_complete (dir : string) (w : world) (files : list string) (f : string)
      (b : list byte) :
  In f files ->
  String.eqb (Path.relative dir f) "mimetype" = false ->
  content w f = Ok b ->
  In (mkEntry (Path.relative dir f) b false) (flat_map (packed dir w) files).
Proof.
  intros Hin Hrel Hc. apply in_flat_map. exists f. split; [exact Hin|].
  unfold packed. rewrite Hrel. apply seen_content in Hc. rewrite Hc. now left.
Qed.

Lemma packed_no_mimetype (dir : string) (w : world) (files : list string) :
  filter (fun e => String.eqb (name e) "mimetype") (flat_map (packed dir w) files) = [].
Proof.
  induction files as [|f files IH]; [reflexivity|]. simpl.
  rewrite filter_app, IH, app_nil_r.
  unfold packed. destruct (String.eqb (Path.relative dir f) "mimetype") eqn:Hm;
    [reflexivity|].
  destruct (seen w f) as [[c| |]|]; try reflexivity. simpl. now rewrite Hm.
Qed.

Section Assembled.

Context {engines : Engines}.

(** X7.  When [dir/mimetype] is a regular file, the output path opens and
    zlib takes the level, [createEpub] succeeds, leaves the working tree as
    it is, and finalizes an archive that holds exactly one entry named
    [mimetype] and, for every other regular file of the tree, an entry with
    the relative path of the file as its name and the bytes of the file: no
    file is dropped. *)
Theorem createEpub_packs_every_file
        (dir outPath : string) (level : float) (t : tree)
        (out : option archive) (log : list line) (c : list byte) :
  let w := mkWorld (Some (mkVolume dir t)) out log in
  content w (Path.join dir "mimetype") = Ok c ->
  open_error outPath = None ->
  level_ok level = true ->
  let done := createEpub dir outPath level w in
  snd done = Ok tt
  /\ disk (fst done) = Some (mkVolume dir t)
  /\ exists a,
      outfile (fst done) = Some a
      /\ finalized a = true
      /\ filter (fun e => String.eqb (name e) "mimetype") (entries a)
         = [mkEntry "mimetype" c true]
      /\ forall f b,
          In f (_walk dir t) -> f <> Path.join dir "mimetype" ->
          content w f = Ok b ->
          In (mkEntry (Path.relative dir f) b false) (entries a).
Proof.
  intros w Hc Ho Hl done. unfold done.
  rewrite (createEpub_eq dir outPath level t w eq_refl).
  apply seen_content in Hc. rewrite Hc, Ho, Hl. simpl.
  split; [reflexivity|]. split; [reflexivity|].
  eexists. split; [reflexivity|]. simpl. split; [reflexivity|]. split.
  - now rewrite packed_no_mimetype.
  - intros f b Hin Hne Hb. right.
    apply packed_complete; [|now apply relative_not_mimetype with t|exact Hb].
    eapply Permutation_in; [apply sort_perm|exact Hin].
Qed.

(** X8.  The existence check of [createEpub] does not ask for a regular
    file: when [dir/mimetype] is a directory the missing-mimetype error is
    not raised and the output path is opened; the read of the entry then
    fails in its stream, which no promise of [createEpub] carries: the
    process ends on an uncaught exception, with an archive at the output
    path that has no entry and is not finalized.  A job whose archive
    extracts to such a tree ends with status 1, prints no [Error:] line
    after processing, and leaves its temporary directory. *)
Theorem createEpub_opens_output_before_reading_mimetype
        (dir : string) (t es : tree) :
  lookup (mkVolume dir t) (Path.join dir "mimetype") = Some (Dir es) ->
  (forall (outPath : string) (level : float) (out : option archive) (log : list line),
      open_error outPath = None ->
      createEpub dir outPath level (mkWorld (Some (mkVolume dir t)) out log)
      = (mkWorld (Some (mkVolume dir t)) (Some (mkArchive outPath level [] false)) log,
         Err (Uncaught EISDIR_read)))
  /\ (forall (args : argv) (tmpdir hex : string) (w0 : world),
         let inPath := nth 0 (positional args) "" in
         let outPath := nth 1 (positional args) "" in
         Path.join tmpdir ("epub-compress-" ++ hex) = dir ->
         inPath <> "" -> outPath <> "" ->
         unzip inPath = mkExtraction t None ->
         open_error outPath = None ->
         let done := main args tmpdir hex w0 in
         snd done = 1%Z
         /\ console (fst done) = console (processed args tmpdir hex w0)
         /\ outfile (fst done) = Some (mkArchive outPath (argv_level args) [] false)
         /\ disk (fst done) = disk (processed args tmpdir hex w0)).
Proof.
  intros Hl. split.
  - intros outPath level out log Ho.
    rewrite (createEpub_eq dir outPath level t
               (mkWorld (Some (mkVolume dir t)) out log) eq_refl).
    unfold seen, fs.find_node. simpl. now rewrite Hl, Ho.
  - intros args tmpdir hex w0 inPath outPath Htmp Hin Hout Hzip Ho done.
    unfold done, main. rewrite run_eq by assumption.
    fold inPath outPath. rewrite Htmp, Hzip. simpl.
    destruct (processed_disk args tmpdir hex w0) as [t' Hd]. rewrite Htmp in Hd.
    rewrite (createEpub_eq dir outPath (argv_level args) t'
               (processed args tmpdir hex w0) Hd).
    pose proof (processed_seen_mimetype args tmpdir hex w0) as Hs.
    cbv zeta in Hs. fold inPath in Hs. rewrite Htmp, Hzip in Hs. simpl in Hs.
    rewrite Hs, Hl, Ho. simpl. repeat split.
Qed.

(** ** [run]: how a job ends *)

(** X9.  With fewer than two (non-empty) positional arguments the job
    prints the usage line on the error console and exits with status 2:
    no temporary directory is made, nothing is extracted and the output path
    is not touched. *)
Theorem usage_error_exits_2 (args : argv) (tmpdir hex : string) (w0 : world) :
  nth 0 (positional args) "" = "" \/ nth 1 (positional args) "" = "" ->
  main args tmpdir hex w0
  = (mkWorld (disk w0) (outfile w0) (console w0 ++ [Error [usage]]), 2%Z).
Proof.
  intros H. unfold main, run.
  assert (Hb : String.eqb (nth 0 (positional args) "") ""
               || String.eqb (nth 1 (positional args) "") "" = true).
  { destruct H as [-> | ->]; simpl; [reflexivity|apply orb_true_r]. }
  rewrite Hb. reflexivity.
Qed.

(** X10.  When extraction fails the job stops there: it exits with status
    1 having printed the start line and the error, nothing is processed or
    assembled, the output path is not touched, and what was extracted so far
    stays in the temporary directory. *)
Theorem extraction_failure_stops_the_job
        (args : argv) (tmpdir hex : string) (w0 : world) (e : string) :
  let inPath := nth 0 (positional args) "" in
  let outPath := nth 1 (positional args) "" in
  let tmp := Path.join tmpdir ("epub-compress-" ++ hex) in
  inPath <> "" -> outPath <> "" ->
  failure (unzip inPath) = Some e ->
  main args tmpdir hex w0
  = (mkWorld (Some (mkVolume tmp (written (unzip inPath))))
             (outfile w0)
             (console w0 ++ [Info ["Compressing"; inPath; "to"; outPath]]
                         ++ [Error ["Error:"; e]]),
     1%Z).
Proof.
  intros inPath outPath tmp Hin Hout Hfail.
  unfold main. rewrite run_eq by assumption.
  fold inPath. rewrite Hfail. unfold extracted. simpl.
  now rewrite <- app_assoc.
Qed.

(** X11.  How a job with both paths given ends, and what it leaves (the
    root [mimetype] of the extracted tree not being a special file).  The
    exit status is 0 or 1.  With status 0, extraction has succeeded, the
    extracted tree has a regular file [mimetype] at its root, the output
    path could be opened and holds a finalized archive, and the temporary
    directory is removed.  With status 1 the temporary directory is still on
    disk.  And the status is 0 whenever extraction succeeds, [mimetype] is a
    regular file, the output path opens and zlib takes the level. *)
Theorem job_exit_status_and_temporary_directory
        (args : argv) (tmpdir hex : string) (w0 : world) :
  let inPath := nth 0 (positional args) "" in
  let outPath := nth 1 (positional args) "" in
  let tmp := Path.join tmpdir ("epub-compress-" ++ hex) in
  let mime := lookup (mkVolume tmp (written (unzip inPath))) (Path.join tmp "mimetype") in
  inPath <> "" -> outPath <> "" ->
  mime <> Some Other ->
  let done := main args tmpdir hex w0 in
  (snd done = 0%Z \/ snd done = 1%Z)
  /\ (snd done = 0%Z ->
      failure (unzip inPath) = None
      /\ (exists c, mime = Some (File c))
      /\ open_error outPath = None
      /\ disk (fst done) = None
      /\ exists a, outfile (fst done) = Some a /\ dest a = outPath /\ finalized a = true)
  /\ (snd done = 1%Z -> exists t', disk (fst done) = Some (mkVolume tmp t'))
  /\ (failure (unzip inPath) = None ->
      (exists c, mime = Some (File c)) ->
      open_error outPath = None ->
      level_ok (argv_level args) = true ->
      snd done = 0%Z).
Proof.
  intros inPath outPath tmp mime Hin Hout Hmime done. unfold done, main.
  rewrite run_eq by assumption. fold inPath outPath tmp.
  destruct (failure (unzip inPath)) as [e|] eqn:Hfail.
  { simpl. split; [now right|]. split; [discriminate|].
    split; [intros _; unfold extracted; simpl; eauto|discriminate]. }
  destruct (processed_disk args tmpdir hex w0) as [t' Hd]. fold tmp in Hd.
  rewrite (createEpub_eq tmp outPath (argv_level args) t'
             (processed args tmpdir hex w0) Hd).
  pose proof (processed_seen_mimetype args tmpdir hex w0) as Hs.
  cbv zeta in Hs. fold inPath tmp in Hs. fold mime in Hs. rewrite Hs.
  assert (Hgone : forall a,
             disk (fst (removeDir tmp (with_archive (processed args tmpdir hex w0) a)))
             = None
             /\ outfile (fst (removeDir tmp (with_archive (processed args tmpdir hex w0) a)))
                = Some a).
  { intros a. unfold removeDir, fs.rm, with_archive. simpl. rewrite Hd. simpl.
    rewrite String.eqb_refl. split; reflexivity. }
  destruct mime as [[c|es|]|] eqn:Hm; [| |now destruct Hmime|]; cbn [option_map view].
  - destruct (open_error outPath) as [m|] eqn:Ho.
    { simpl. split; [now right|]. split; [discriminate|].
      split; [intros _; rewrite Hd; eauto|discriminate]. }
    cbn [stream_result].
    destruct (level_ok (argv_level args) || is_nil _) eqn:Hl.
    + simpl. split; [now left|]. split; [|split; [discriminate|reflexivity]].
      intros _. destruct (Hgone (mkArchive outPath (argv_level args)
                                   (mkEntry "mimetype" c true
                                    :: flat_map (packed tmp (processed args tmpdir hex w0))
                                                (sort (_walk tmp t'))) true))
        as [Hg1 Hg2].
      repeat split; eauto.
    + simpl. split; [now right|]. split; [discriminate|].
      split; [intros _; rewrite Hd; eauto|].
      intros _ _ _ Hlevel. now rewrite Hlevel in Hl.
  - destruct (open_error outPath) as [m|] eqn:Ho; simpl;
      (split; [now right|]; split; [discriminate|];
       split; [intros _; rewrite Hd; eauto|intros _ [c [=]]]).
  - simpl. split; [now right|]. split; [discriminate|].
    split; [intros _; rewrite Hd; eauto|intros _ [c [=]]].
Qed.

(** X12.  End to end, the archive of a job that ends with status 0 holds
    the transformed files: it is finalized, and for every regular file of
    the extracted tree other than the root [mimetype] it has an entry named
    by the relative path of the file whose bytes are those the transformer
    of the file leaves when it runs on the extracted tree. *)
Theorem job_archives_the_transformed_files
        (args : argv) (tmpdir hex : string) (w0 : world) :
  let inPath := nth 0 (positional args) "" in
  let outPath := nth 1 (positional args) "" in
  let tmp := Path.join tmpdir ("epub-compress-" ++ hex) in
  let t := written (unzip inPath) in
  let opts := mkOpts (argv_images args) (argv_quality args) in
  inPath <> "" -> outPath <> "" ->
  NoDup (_walk tmp t) ->
  snd (main args tmpdir hex w0) = 0%Z ->
  exists a,
    outfile (fst (main args tmpdir hex w0)) = Some a
    /\ dest a = outPath
    /\ finalized a = true
    /\ forall f b,
        In f (_walk tmp t) -> f <> Path.join tmp "mimetype" ->
        content (fst (dispatch opts f (Path.relative tmp f)
                               (toLowerCase (Path.extname f))
                               (extracted args tmpdir hex w0))) f = Ok b ->
        In (mkEntry (Path.relative tmp f) b false) (entries a).
Proof.
  intros inPath outPath tmp t opts Hin Hout Hnd.
  unfold main. rewrite run_eq by assumption. fold inPath outPath tmp.
  destruct (failure (unzip inPath)) as [e|]; [discriminate|].
  destruct (processFiles_shape tmp opts t (extracted args tmpdir hex w0) eq_refl)
    as [_ (t' & Hd & Hsk)].
  assert (Hwalk : _walk tmp t' = _walk tmp t)
    by (now rewrite <- (walk_skeleton tmp t'), Hsk, walk_skeleton).
  change (fst (processFiles tmp opts (extracted args tmpdir hex w0)))
    with (processed args tmpdir hex w0) in Hd.
  rewrite (createEpub_eq tmp outPath (argv_level args) t'
             (processed args tmpdir hex w0) Hd).
  destruct (seen _ (Path.join tmp "mimetype")) as [s|]; [|discriminate].
  destruct (open_error outPath) as [m|]; [discriminate|].
  destruct (stream_result (Some s) (Path.join tmp "mimetype")) as [c|e] eqn:Hr.
  2: { destruct s as [c| |]; cbn [stream_result] in Hr;
         [discriminate|injection Hr as <-; discriminate|].
       destruct (special_read _); [discriminate|injection Hr as <-; discriminate]. }
  destruct (level_ok (argv_level args) || is_nil _); [|discriminate].
  intros _. eexists. split.
  { unfold removeDir, fs.rm, with_archive. simpl. rewrite Hd. simpl.
    rewrite String.eqb_refl. reflexivity. }
  split; [reflexivity|]. split; [reflexivity|].
  intros f b Hf Hne Hb. simpl. right.
  apply packed_complete.
  - eapply Permutation_in; [apply sort_perm|]. now rewrite Hwalk.
  - now apply relative_not_mimetype with t.
  - rewrite <- Hb. unfold processed. fold tmp opts.
    rewrite (processFiles_eq tmp opts t (extracted args tmpdir hex w0) eq_refl).
    apply (for_of_each tmp opts (_walk tmp t) Hnd
             (extracted args tmpdir hex w0) (extracted args tmpdir hex w0)
             (fun _ _ => eq_refl) f Hf).
Qed.

End Assembled.

(** ** The transformers, once more *)

Lemma edit_rewrites (f : string) (decide : list byte -> verdict) (w : world)
      (src data : list byte) :
  content w f = Ok src -> decide src = Rewrite data ->
  snd (edit f decide w) = Ok tt
  /\ content (fst (edit f decide w)) f = Ok data
  /\ forall p, p <> f -> content (fst (edit f decide w)) p = content w p.
Proof.
  intros Hc Hd. rewrite edit_eq, Hc, Hd. simpl.
  split; [reflexivity|]. split.
  - now rewrite (content_overwrite f data w src Hc), String.eqb_refl.
  - intros p Hp. rewrite (content_overwrite f data w src Hc).
    apply String.eqb_neq in Hp. now rewrite Hp.
Qed.

Lemma edit_raises (f : string) (decide : list byte -> verdict) (w : world)
      (src : list byte) (message : string) :
  content w f = Ok src -> decide src = Raise message ->
  edit f decide w = (w, Err (Error_ message)).
Proof. intros Hc Hd. now rewrite edit_eq, Hc, Hd. Qed.

Section Transformers.

Context {engines : Engines}.

(** X13.  The markup, style and vector minifiers write back whatever the
    engine returns, the empty text included (only the script minifier holds
    back an empty result): after a successful call the file holds the
    encoded result and no other file has changed; when the engine throws,
    the error is passed on and the state is as before. *)
Theorem text_minifiers_write_back_any_result
        (filePath : string) (w : world) (src : list byte) :
  content w filePath = Ok src ->
  (let r := minifyHtmlFile filePath w in
   match htmlMinify (utf8_decode src) with
   | Returned min =>
       snd r = Ok tt
       /\ content (fst r) filePath = Ok (utf8_encode min)
       /\ forall p, p <> filePath -> content (fst r) p = content w p
   | Thrown message => r = (w, Err (Error_ message))
   end)
  /\ (let r := minifyCssFile filePath w in
      match csso_minify (utf8_decode src) with
      | Returned out =>
          snd r = Ok tt
          /\ content (fst r) filePath = Ok (utf8_encode out)
          /\ forall p, p <> filePath -> content (fst r) p = content w p
      | Thrown message => r = (w, Err (Error_ message))
      end)
  /\ (let r := minifySvg filePath w in
      snd r = Ok tt
      /\ content (fst r) filePath = Ok (utf8_encode (Svg.minify (utf8_decode src)))
      /\ forall p, p <> filePath -> content (fst r) p = content w p).
Proof.
  intros Hc. split; [|split]; cbv zeta.
  - rewrite minifyHtmlFile_edit.
    destruct (htmlMinify (utf8_decode src)) as [min|m] eqn:He.
    + apply edit_rewrites with src; [exact Hc|]. unfold html_verdict. now rewrite He.
    + apply edit_raises with src; [exact Hc|]. unfold html_verdict. now rewrite He.
  - rewrite minifyCssFile_edit.
    destruct (csso_minify (utf8_decode src)) as [min|m] eqn:He.
    + apply edit_rewrites with src; [exact Hc|]. unfold css_verdict. now rewrite He.
    + apply edit_raises with src; [exact Hc|]. unfold css_verdict. now rewrite He.
  - rewrite minifySvg_edit. now apply edit_rewrites with src.
Qed.

Lemma optimizeImage_size (filePath : string) (q : float) (w : world) (b : list byte) :
  content w filePath = Ok b ->
  exists b', content (fst (optimizeImage filePath q w)) filePath = Ok b'
             /\ (List.length b' <= List.length b)%nat.
Proof.
  intros Hc. rewrite optimizeImage_edit, edit_eq, Hc. unfold image_verdict.
  destruct (plugins_for _ q) as [plugins|]; simpl; [|now exists b].
  destruct (imagemin_buffer b plugins) as [out|m]; simpl; [|now exists b].
  destruct (List.length out <? List.length b)%nat eqn:Hlt; simpl; [|now exists b].
  exists out. rewrite (content_overwrite filePath out w b Hc), String.eqb_refl.
  apply Nat.ltb_lt in Hlt. split; [reflexivity|lia].
Qed.

(** X14.  With image optimization on, no image is longer after
    [processFiles] than before: for every file of the tree that is classified
    for raster optimization, whatever the engine returns for it and whatever
    happens to the other files. *)
Theorem processFiles_never_grows_an_image
        (root : string) (opts : process_opts) (t : tree)
        (out : option archive) (log : list line) (f : string) (b : list byte) :
  let w := mkWorld (Some (mkVolume root t)) out log in
  NoDup (_walk root t) ->
  In f (_walk root t) ->
  action_of opts f = OptimizeRaster ->
  content w f = Ok b ->
  exists b', content (fst (processFiles root opts w)) f = Ok b'
             /\ (List.length b' <= List.length b)%nat.
Proof.
  intros w Hnd Hf Ha Hc.
  rewrite (processFiles_eq root opts t w eq_refl).
  destruct (for_of_each root opts (_walk root t) Hnd w w (fun _ _ => eq_refl) f Hf)
    as [Hfinal _].
  rewrite Hfinal, dispatch_perform. unfold action_of in Ha. rewrite Ha. simpl.
  now apply optimizeImage_size.
Qed.

End Transformers.

(** X15.  For every whole-number quality from 0 to 100 the pngquant range
    has its minimum between 0.1 and 0.7 and its maximum between 0 and 1;
    the minimum is 0.1 exactly up to quality 40; and the range is in order
    (minimum not above maximum) exactly from quality 10 on: below 10 the
    floor of 0.1 lies above the maximum. *)
Theorem png_range_on_whole_qualities (n : nat) :
  (n <= 100)%nat ->
  let lo := fst (png_range (number_of_nat n)) in
  let hi := snd (png_range (number_of_nat n)) in
  PrimFloat.leb 0.1%float lo = true
  /\ PrimFloat.leb lo 0.7%float = true
  /\ PrimFloat.leb 0%float hi = true
  /\ PrimFloat.leb hi 1%float = true
  /\ PrimFloat.eqb lo 0.1%float = (n <=? 40)%nat
  /\ PrimFloat.leb lo hi = (10 <=? n)%nat.
Proof.
  intros Hn.
  set (check := fun n : nat =>
         let lo := fst (png_range (number_of_nat n)) in
         let hi := snd (png_range (number_of_nat n)) in
         PrimFloat.leb 0.1%float lo && PrimFloat.leb lo 0.7%float
         && PrimFloat.leb 0%float hi && PrimFloat.leb hi 1%float
         && Bool.eqb (PrimFloat.eqb lo 0.1%float) (n <=? 40)%nat
         && Bool.eqb (PrimFloat.leb lo hi) (10 <=? n)%nat).
  assert (Hall : forallb check (seq 0 101) = true) by (vm_compute; reflexivity).
  rewrite forallb_forall in Hall.
  assert (Hc : check n = true) by (apply Hall, in_seq; lia).
  unfold check in Hc. cbv zeta in Hc.
  repeat (apply andb_prop in Hc as [Hc ?]).
  repeat split; try assumption; now apply Bool.eqb_prop.
Qed.

(** ** The further properties at the sample job *)

Lemma processFiles_reports_each_skip_and_failure_witness :
  NoDup (_walk Sample.tmp Sample.book)
  /\ console (fst (@processFiles Sample.engines Sample.tmp (mkOpts false 80%float)
                                 Sample.book_world))
     = [Warn ["Skipping"; "mimetype"];
        Warn ["Failed to process"; "OEBPS/broken.js"; "Unexpected token: punc ())"];
        Warn ["Skipping"; "OEBPS/cover.JPG"];
        Warn ["Skipping"; "OEBPS/font.otf"]].
Proof.
  split; [exact book_files_distinct|].
  refine (eq_trans
            (@processFiles_reports_each_skip_and_failure
               Sample.engines Sample.tmp (mkOpts false 80%float) Sample.book None []
               book_files_distinct) _).
  vm_compute. reflexivity.
Defined.

Lemma walk_lists_every_regular_file_witness :
  In (Path.join Sample.tmp "OEBPS/app.js", File (Sample.bytes " f() "))
     (nodes_in Sample.tmp Sample.book)
  /\ In (Path.join Sample.tmp "OEBPS/app.js") (_walk Sample.tmp Sample.book)
  /\ distinct_paths Sample.tmp Sample.book
  /\ ~ In (Path.join Sample.tmp "META-INF") (_walk Sample.tmp Sample.book).
Proof.
  assert (Hfile : In (Path.join Sample.tmp "OEBPS/app.js", File (Sample.bytes " f() "))
                     (nodes_in Sample.tmp Sample.book)) by (vm_compute; tauto).
  assert (Hdir : In (Path.join Sample.tmp "META-INF",
                     Dir [("container.xml", File (Sample.bytes "<container>  </container>"))])
                    (nodes_in Sample.tmp Sample.book)) by (vm_compute; tauto).
  split; [exact Hfile|].
  split.
  - destruct (walk_lists_every_regular_file
                Sample.tmp Sample.book (Path.join Sample.tmp "OEBPS/app.js"))
      as [Hlisted _].
    exact (Hlisted _ Hfile).
  - split; [exact book_paths_distinct|].
    intros Hin.
    destruct (walk_lists_every_regular_file
                Sample.tmp Sample.book (Path.join Sample.tmp "META-INF"))
      as [_ Hkind].
    destruct (Hkind Hin) as [_ Hnode].
    destruct (Hnode book_paths_distinct _ Hdir) as [H _]. discriminate H.
Defined.

Lemma createEpub_packs_every_file_witness :
  content Sample.book_world (Path.join Sample.tmp "mimetype")
  = Ok (Sample.bytes "application/epub+zip")
  /\ @open_error Sample.engines "out.epub" = None
  /\ @level_ok Sample.engines 9%float = true
  /\ (let done := @createEpub Sample.engines Sample.tmp "out.epub" 9%float
                              Sample.book_world in
      snd done = Ok tt
      /\ exists a,
          outfile (fst done) = Some a
          /\ In (mkEntry "OEBPS/font.otf" (Sample.bytes "OTTO") false) (entries a)).
Proof.
  do 3 (split; [reflexivity|]). cbv zeta.
  destruct (@createEpub_packs_every_file
              Sample.engines Sample.tmp "out.epub" 9%float Sample.book None []
              (Sample.bytes "application/epub+zip") eq_refl eq_refl eq_refl)
    as (Hok & _ & a & Ha & _ & _ & Hall).
  split; [exact Hok|]. exists a. split; [exact Ha|].
  apply (Hall (Path.join Sample.tmp "OEBPS/font.otf") (Sample.bytes "OTTO")).
  - vm_compute. tauto.
  - discriminate.
  - reflexivity.
Defined.

Lemma createEpub_opens_output_before_reading_mimetype_witness :
  lookup (mkVolume "/t" mimetype_folder) (Path.join "/t" "mimetype")
  = Some (Dir [("readme.txt", File (Sample.bytes "x"))])
  /\ @open_error Sample.engines "out.epub" = None
  /\ @createEpub Sample.engines "/t" "out.epub" 9%float
       (mkWorld (Some (mkVolume "/t" mimetype_folder)) None [])
     = (mkWorld (Some (mkVolume "/t" mimetype_folder))
                (Some (mkArchive "out.epub" 9%float [] false)) [],
        Err (Uncaught EISDIR_read)).
Proof.
  split; [reflexivity|]. split; [reflexivity|].
  destruct (@createEpub_opens_output_before_reading_mimetype
              Sample.engines "/t" mimetype_folder
              [("readme.txt", File (Sample.bytes "x"))] eq_refl) as [Hassemble _].
  apply (Hassemble "out.epub" 9%float None []). reflexivity.
Defined.

Lemma usage_error_exits_2_witness :
  (nth 0 (positional (mkArgv ["book.epub"] false 80%float 9%float)) "" = ""
   \/ nth 1 (positional (mkArgv ["book.epub"] false 80%float 9%float)) "" = "")
  /\ @main Sample.engines (mkArgv ["book.epub"] false 80%float 9%float)
           "/tmp" "a1b2c3d4e5f6" world0
     = (mkWorld None None [Error [usage]], 2%Z).
Proof.
  split; [right; reflexivity|].
  apply (@usage_error_exits_2 Sample.engines
           (mkArgv ["book.epub"] false 80%float 9%float) "/tmp" "a1b2c3d4e5f6" world0).
  right. reflexivity.
Defined.

Lemma extraction_failure_stops_the_job_witness :
  failure (@unzip Sample.engines "corrupt.epub") = Some "invalid signature"
  /\ Sample.job "corrupt.epub" true
     = (mkWorld (Some (mkVolume Sample.tmp [])) None
                [Info ["Compressing"; "corrupt.epub"; "to"; "out.epub"];
                 Error ["Error:"; "invalid signature"]],
        1%Z).
Proof.
  split; [reflexivity|].
  apply (@extraction_failure_stops_the_job
           Sample.engines (Sample.args "corrupt.epub" true) "/tmp" "a1b2c3d4e5f6"
           world0 "invalid signature");
    [simpl; discriminate|simpl; discriminate|reflexivity].
Defined.

Lemma job_exit_status_and_temporary_directory_witness :
  lookup (mkVolume Sample.tmp Sample.book) (Path.join Sample.tmp "mimetype")
  = Some (File (Sample.bytes "application/epub+zip"))
  /\ lookup (mkVolume Sample.tmp Sample.headless) (Path.join Sample.tmp "mimetype") = None
  /\ snd (Sample.job "book.epub" true) = 0%Z
  /\ disk (fst (Sample.job "book.epub" true)) = None
  /\ snd (Sample.job "headless.epub" true) = 1%Z
  /\ exists t', disk (fst (Sample.job "headless.epub" true))
                = Some (mkVolume Sample.tmp t').
Proof.
  split; [reflexivity|]. split; [reflexivity|].
  destruct (@job_exit_status_and_temporary_directory
              Sample.engines (Sample.args "book.epub" true) "/tmp" "a1b2c3d4e5f6" world0)
    as (_ & Hzero & _ & Hgood);
    [simpl; discriminate|simpl; discriminate|discriminate|].
  assert (H0 : snd (Sample.job "book.epub" true) = 0%Z).
  { apply Hgood; [reflexivity| |reflexivity|reflexivity].
    exists (Sample.bytes "application/epub+zip"). reflexivity. }
  destruct (Hzero H0) as (_ & _ & _ & Hd & _).
  destruct (@job_exit_status_and_temporary_directory
              Sample.engines (Sample.args "headless.epub" true) "/tmp" "a1b2c3d4e5f6"
              world0)
    as (Hstatus & Hzero' & Hone & _);
    [simpl; discriminate|simpl; discriminate|discriminate|].
  assert (H1 : snd (Sample.job "headless.epub" true) = 1%Z).
  { destruct Hstatus as [H|H]; [|exact H].
    destruct (Hzero' H) as (_ & [c Hc] & _). discriminate Hc. }
  split; [exact H0|]. split; [exact Hd|]. split; [exact H1|exact (Hone H1)].
Defined.

Lemma job_archives_the_transformed_files_witness :
  NoDup (_walk Sample.tmp Sample.book)
  /\ snd (Sample.job "book.epub" true) = 0%Z
  /\ exists a,
      outfile (fst (Sample.job "book.epub" true)) = Some a
      /\ finalized a = true
      /\ In (mkEntry "OEBPS/style.css" (Sample.bytes "body{color:red}") false) (entries a)
      /\ In (mkEntry "OEBPS/cover.JPG" (Sample.bytes "01234") false) (entries a)
      /\ In (mkEntry "OEBPS/broken.js" (Sample.bytes ") oops") false) (entries a).
Proof.
  split; [exact book_files_distinct|].
  assert (H0 : snd (Sample.job "book.epub" true) = 0%Z) by (vm_compute; reflexivity).
  split; [exact H0|].
  destruct (@job_archives_the_transformed_files
              Sample.engines (Sample.args "book.epub" true) "/tmp" "a1b2c3d4e5f6" world0)
    as (a & Ha & _ & Hfin & Hall);
    [simpl; discriminate|simpl; discriminate|exact book_files_distinct|exact H0|].
  exists a. split; [exact Ha|]. split; [exact Hfin|].
  split; [|split].
  - apply (Hall (Path.join Sample.tmp "OEBPS/style.css"));
      [vm_compute; tauto|discriminate|vm_compute; reflexivity].
  - apply (Hall (Path.join Sample.tmp "OEBPS/cover.JPG"));
      [vm_compute; tauto|discriminate|vm_compute; reflexivity].
  - apply (Hall (Path.join Sample.tmp "OEBPS/broken.js"));
      [vm_compute; tauto|discriminate|vm_compute; reflexivity].
Defined.

Lemma text_minifiers_write_back_any_result_witness :
  content Sample.book_world (Path.join Sample.tmp "OEBPS/style.css")
  = Ok (Sample.bytes "  body{color:red}  ")
  /\ content (fst (@minifyCssFile Sample.engines (Path.join Sample.tmp "OEBPS/style.css")
                                  Sample.book_world))
             (Path.join Sample.tmp "OEBPS/style.css")
     = Ok (Sample.bytes "body{color:red}").
Proof.
  split; [reflexivity|].
  destruct (@text_minifiers_write_back_any_result
              Sample.engines (Path.join Sample.tmp "OEBPS/style.css") Sample.book_world
              (Sample.bytes "  body{color:red}  ") eq_refl) as (_ & Hcss & _).
  vm_compute in Hcss. vm_compute. destruct Hcss as (_ & H & _). exact H.
Defined.

Lemma processFiles_never_grows_an_image_witness :
  NoDup (_walk Sample.tmp Sample.book)
  /\ In (Path.join Sample.tmp "OEBPS/cover.JPG") (_walk Sample.tmp Sample.book)
  /\ action_of (mkOpts true 80%float) (Path.join Sample.tmp "OEBPS/cover.JPG")
     = OptimizeRaster
  /\ content Sample.book_world (Path.join Sample.tmp "OEBPS/cover.JPG")
     = Ok (Sample.bytes "0123456789")
  /\ exists b',
      content (fst (@processFiles Sample.engines Sample.tmp (mkOpts true 80%float)
                                  Sample.book_world))
              (Path.join Sample.tmp "OEBPS/cover.JPG") = Ok b'
      /\ (List.length b' <= 10)%nat.
Proof.
  assert (Hin : In (Path.join Sample.tmp "OEBPS/cover.JPG") (_walk Sample.tmp Sample.book))
    by (vm_compute; tauto).
  split; [exact book_files_distinct|]. split; [exact Hin|].
  split; [reflexivity|]. split; [reflexivity|].
  apply (@processFiles_never_grows_an_image
           Sample.engines Sample.tmp (mkOpts true 80%float) Sample.book None []
           (Path.join Sample.tmp "OEBPS/cover.JPG") (Sample.bytes "0123456789")
           book_files_distinct Hin eq_refl eq_refl).
Defined.

Lemma png_range_on_whole_qualities_witness :
  (5 <= 100)%nat
  /\ PrimFloat.leb (fst (png_range (number_of_nat 5))) (snd (png_range (number_of_nat 5)))
     = false
  /\ (80 <= 100)%nat
  /\ PrimFloat.leb (fst (png_range (number_of_nat 80))) (snd (png_range (number_of_nat 80)))
     = true.
Proof.
  assert (H5 : (5 <= 100)%nat) by lia.
  assert (H80 : (80 <= 100)%nat) by lia.
  split; [exact H5|].
  split; [apply (png_range_on_whole_qualities 5 H5)|].
  split; [exact H80|].
  apply (png_range_on_whole_qualities 80 H80).
Defined.
